(** * sslstrip: the request/response rewriting pipeline and its link cache

    A shallow embedding of [sslstrip.go].  Go strings are byte strings and
    are modelled as [list ascii]; the process-wide [storedLinks] map is a
    [gmap] keyed by the pair (clientIP, url) of the [clientLink] struct.
    The parts of the Go standard library the program calls ([strings],
    [net/url], the two regular expressions handed to [regexp]) are modelled
    in their own modules, following the library sources. *)

From Stdlib Require Import Ascii String ZArith Lia Bool.
From stdpp Require Import base option list gmap strings.

Local Open Scope Z_scope.

(** A Go string: a sequence of bytes. *)
Abbreviation gostring := (list ascii).

(** String literals of the source, as byte sequences. *)
Notation "$ s" := (list_ascii_of_string s%string) (at level 1, format "$ s").

(** ** The [strings] package *)

Module GoStrings.

(** [strings.HasPrefix(s, prefix)] *)
Fixpoint HasPrefix (s prefix : gostring) {struct prefix} : bool :=
  match prefix, s with
  | [], _ => true
  | _ :: _, [] => false
  | p :: prefix', c :: s' => if Ascii.eqb c p then HasPrefix s' prefix' else false
  end.

(** [strings.HasSuffix(s, suffix)] *)
Definition HasSuffix (s suffix : gostring) : bool :=
  HasPrefix (rev s) (rev suffix).

(** First position at which [substr] occurs in [s], if any. *)
Fixpoint index_of (s substr : gostring) : option nat :=
  if HasPrefix s substr then Some O
  else match s with
       | [] => None
       | _ :: s' => S <$> index_of s' substr
       end.

(** Last position at which [substr] occurs in [s], if any. *)
Fixpoint last_index_of (s substr : gostring) : option nat :=
  match s with
  | [] => if HasPrefix [] substr then Some O else None
  | _ :: s' =>
      match last_index_of s' substr with
      | Some i => Some (S i)
      | None => if HasPrefix s substr then Some O else None
      end
  end.

(** [strings.Index(s, substr)]: the index of the first instance, or -1. *)
Definition Index (s substr : gostring) : Z :=
  match index_of s substr with Some i => Z.of_nat i | None => -1 end.

(** [strings.LastIndex(s, substr)]: the index of the last instance, or -1. *)
Definition LastIndex (s substr : gostring) : Z :=
  match last_index_of s substr with Some i => Z.of_nat i | None => -1 end.

(** [strings.Contains(s, substr)] *)
Definition Contains (s substr : gostring) : bool :=
  0 <=? Index s substr.

(** [strings.Cut(s, sep)]: (before, after, found). *)
Definition Cut (s sep : gostring) : gostring * gostring * bool :=
  match index_of s sep with
  | Some i => (take i s, drop (i + length sep) s, true)
  | None => (s, [], false)
  end.

(** [strings.Count(s, sep)] for a one-byte separator. *)
Definition CountByte (s : gostring) (c : ascii) : nat :=
  length (filter (fun x => x = c) s).

(** [strings.Split(s, sep)[0]]: the piece before the first separator, the
    whole string when there is none (sep is non-empty at every call). *)
Definition SplitFirst (s sep : gostring) : gostring :=
  match index_of s sep with
  | Some i => take i s
  | None => s
  end.

(** ASCII lower-casing; [strings.ToLower] restricted to the bytes a URL
    scheme can hold (letters, digits, [+], [-], [.]). *)
Definition lower (c : ascii) : ascii :=
  let n := N_of_ascii c in
  if ((65 <=? n) && (n <=? 90))%N then ascii_of_N (n + 32) else c.

Definition ToLower (s : gostring) : gostring := map lower s.

(** [a == b] on strings. *)
Fixpoint streq (a b : gostring) : bool :=
  match a, b with
  | [], [] => true
  | x :: a', y :: b' => Ascii.eqb x y && streq a' b'
  | _, _ => false
  end.

(** [s == ""] *)
Definition is_empty (s : gostring) : bool :=
  match s with [] => true | _ => false end.

(** A Go slice expression [s[i:j]] with [0 <= i <= j <= len(s)]. *)
Definition slice (s : gostring) (i j : nat) : gostring := take (j - i) (drop i s).

End GoStrings.

Import GoStrings.


(** ** The [net/url] package

    [Parse], [ParseRequestURI] and the [String] method of [URL], with the helpers they
    call, transcribed from the library source. *)

Module GoURL.

Definition byte_in (lo hi : N) (c : ascii) : bool :=
  ((lo <=? N_of_ascii c) && (N_of_ascii c <=? hi))%N.

Definition is_lower (c : ascii) : bool := byte_in 97 122 c.
Definition is_upper (c : ascii) : bool := byte_in 65 90 c.
Definition is_alpha (c : ascii) : bool := is_lower c || is_upper c.
Definition is_digit (c : ascii) : bool := byte_in 48 57 c.
Definition is_alnum (c : ascii) : bool := is_alpha c || is_digit c.

(** The double-quote byte. *)
Definition dquote : ascii := ascii_of_N 34.

Definition one_of (cs : gostring) (c : ascii) : bool :=
  existsb (Ascii.eqb c) cs.

Inductive encoding : Type :=
  | encodePath | encodePathSegment | encodeHost | encodeZone
  | encodeUserPassword | encodeQueryComponent | encodeFragment.

Definition ishex (c : ascii) : bool :=
  is_digit c || byte_in 97 102 c || byte_in 65 70 c.

Definition unhex (c : ascii) : N :=
  let n := N_of_ascii c in
  if is_digit c then (n - 48)%N
  else if byte_in 97 102 c then (n - 97 + 10)%N
  else if byte_in 65 70 c then (n - 65 + 10)%N
  else 0%N.

(** [shouldEscape(c, mode)] *)
Definition shouldEscape (c : ascii) (mode : encoding) : bool :=
  if is_alnum c then false
  else if (match mode with encodeHost | encodeZone => true | _ => false end)
          && one_of ($"!$&'()*+,;=:[]<>" ++ [dquote]) c
  then false
  else if one_of $"-_.~" c then false
  else if one_of $"$&+,/:;=?@" c then
    match mode with
    | encodePath => Ascii.eqb c "?"
    | encodePathSegment => one_of $"/;,?" c
    | encodeUserPassword => one_of $"@/?:" c
    | encodeQueryComponent => true
    | encodeFragment => false
    | encodeHost | encodeZone => true
    end
  else if (match mode with encodeFragment => true | _ => false end)
          && one_of $"!()*" c
  then false
  else true.

Definition upperhex (n : N) : ascii :=
  nth (N.to_nat n) $"0123456789ABCDEF" "0"%char.

(** [escape(s, mode)] *)
Fixpoint escape (s : gostring) (mode : encoding) : gostring :=
  match s with
  | [] => []
  | c :: s' =>
      if shouldEscape c mode then
        match mode, Ascii.eqb c " " with
        | encodeQueryComponent, true => "+"%char :: escape s' mode
        | _, _ =>
            "%"%char :: upperhex (N_of_ascii c / 16) :: upperhex (N_of_ascii c mod 16)
              :: escape s' mode
        end
      else c :: escape s' mode
  end.

(** [unescape(s, mode)]: [None] stands for the [EscapeError] and
    [InvalidHostError] results.  The library checks the whole string first
    and decodes afterwards; a single pass returns the same result. *)
Fixpoint unescape (s : gostring) (mode : encoding) : option gostring :=
  match s with
  | [] => Some []
  | c :: s' =>
      if Ascii.eqb c "%" then
        match s' with
        | h1 :: h2 :: s'' =>
            if negb (ishex h1 && ishex h2) then None
            else
              let is25 := Ascii.eqb h1 "2" && Ascii.eqb h2 "5" in
              let v := ascii_of_N (unhex h1 * 16 + unhex h2) in
              if (match mode with encodeHost => true | _ => false end)
                 && (unhex h1 <? 8)%N && negb is25 then None
              else if (match mode with encodeZone => true | _ => false end)
                      && negb is25 && negb (Ascii.eqb v " ")
                      && shouldEscape v encodeHost then None
              else cons v <$> unescape s'' mode
        | _ => None
        end
      else if Ascii.eqb c "+" then
        match mode with
        | encodeQueryComponent => cons " "%char <$> unescape s' mode
        | _ => cons c <$> unescape s' mode
        end
      else if (match mode with encodeHost | encodeZone => true | _ => false end)
              && (N_of_ascii c <? 128)%N && shouldEscape c encodeHost then None
      else cons c <$> unescape s' mode
  end.

(** [validEncoded(s, mode)] *)
Definition validEncoded (s : gostring) (mode : encoding) : bool :=
  forallb (fun c =>
    if one_of $"!$&'()*+,;=:@" c then true
    else if one_of $"[]" c then true
    else if Ascii.eqb c "%" then true
    else negb (shouldEscape c mode)) s.

(** [stringContainsCTLByte(s)] *)
Definition stringContainsCTLByte (s : gostring) : bool :=
  existsb (fun c => (N_of_ascii c <? 32)%N || (N_of_ascii c =? 127)%N) s.

(** [getScheme(rawURL)]: [Some (scheme, rest)], or [None] for the
    "missing protocol scheme" error.  [i] is the loop index, [acc] the
    bytes already passed in reverse. *)
Fixpoint getScheme_loop (rawURL : gostring) (i : nat) (acc s : gostring)
  : option (gostring * gostring) :=
  match s with
  | [] => Some ([], rawURL)
  | c :: s' =>
      if is_alpha c then getScheme_loop rawURL (S i) (c :: acc) s'
      else if is_digit c || one_of $"+-." c then
        match i with
        | O => Some ([], rawURL)
        | _ => getScheme_loop rawURL (S i) (c :: acc) s'
        end
      else if Ascii.eqb c ":" then
        match i with
        | O => None
        | _ => Some (rev acc, s')
        end
      else Some ([], rawURL)
  end.

Definition getScheme (rawURL : gostring) : option (gostring * gostring) :=
  getScheme_loop rawURL O [] rawURL.

(** [validOptionalPort(port)] *)
Definition validOptionalPort (port : gostring) : bool :=
  match port with
  | [] => true
  | c :: ds => Ascii.eqb c ":" && forallb is_digit ds
  end.

(** [validUserinfo(s)] *)
Definition validUserinfo (s : gostring) : bool :=
  forallb (fun r => is_alnum r || one_of $"-._:~!$&'()*+,;=%@" r) s.

(** [Userinfo]: username, password and whether the password is set. *)
Record Userinfo : Type := mkUserinfo {
  username : gostring;
  password : gostring;
  passwordSet : bool
}.

(** The [URL] struct; [User] is a nullable pointer. *)
Record URL : Type := mkURL {
  Scheme : gostring;
  Opaque : gostring;
  User : option Userinfo;
  Host : gostring;
  Path : gostring;
  RawPath : gostring;
  OmitHost : bool;
  ForceQuery : bool;
  RawQuery : gostring;
  Fragment : gostring;
  RawFragment : gostring
}.

(** [new(URL)] *)
Definition zeroURL : URL := mkURL [] [] None [] [] [] false false [] [] [].

Definition withPath (u : URL) (p : gostring) : URL :=
  mkURL (Scheme u) (Opaque u) (User u) (Host u) p (RawPath u) (OmitHost u)
        (ForceQuery u) (RawQuery u) (Fragment u) (RawFragment u).

(** [parseHost(host)] *)
Definition parseHost (host : gostring) : option gostring :=
  if HasPrefix host $"[" then
    match last_index_of host $"]" with
    | None => None
    | Some i =>
        if negb (validOptionalPort (drop (i + 1) host)) then None
        else
          match index_of (take i host) $"%25" with
          | Some zone =>
              host1 ← unescape (take zone host) encodeHost;
              host2 ← unescape (slice host zone i) encodeZone;
              host3 ← unescape (drop i host) encodeHost;
              Some (host1 ++ host2 ++ host3)
          | None => unescape host encodeHost
          end
    end
  else
    match last_index_of host $":" with
    | Some i =>
        if negb (validOptionalPort (drop i host)) then None
        else unescape host encodeHost
    | None => unescape host encodeHost
    end.

(** [parseAuthority(authority)] *)
Definition parseAuthority (authority : gostring)
  : option (option Userinfo * gostring) :=
  match last_index_of authority $"@" with
  | None => host ← parseHost authority; Some (None, host)
  | Some i =>
      host ← parseHost (drop (i + 1) authority);
      let userinfo := take i authority in
      if negb (validUserinfo userinfo) then None
      else if negb (Contains userinfo $":") then
        name ← unescape userinfo encodeUserPassword;
        Some (Some (mkUserinfo name [] false), host)
      else
        let '(name, pass, _) := Cut userinfo $":" in
        name' ← unescape name encodeUserPassword;
        pass' ← unescape pass encodeUserPassword;
        Some (Some (mkUserinfo name' pass' true), host)
  end.

(** [(u *URL) setPath(p)] *)
Definition setPath (u : URL) (p : gostring) : option URL :=
  path ← unescape p encodePath;
  Some (mkURL (Scheme u) (Opaque u) (User u) (Host u) path
          (if streq p (escape path encodePath) then [] else p)
          (OmitHost u) (ForceQuery u) (RawQuery u) (Fragment u) (RawFragment u)).

(** [(u *URL) setFragment(f)] *)
Definition setFragment (u : URL) (f : gostring) : option URL :=
  frag ← unescape f encodeFragment;
  Some (mkURL (Scheme u) (Opaque u) (User u) (Host u) (Path u) (RawPath u)
          (OmitHost u) (ForceQuery u) (RawQuery u) frag
          (if streq f (escape frag encodeFragment) then [] else f)).

(** The query split of [parse]: a lone trailing [?] sets [ForceQuery],
    otherwise the string is cut at its first [?].  The result is the
    remaining string, [ForceQuery] and [RawQuery]. *)
Definition splitQuery (rest0 : gostring) : gostring * bool * gostring :=
  if HasSuffix rest0 $"?" && (CountByte rest0 "?" =? 1)%nat
  then (take (length rest0 - 1) rest0, true, [])
  else let '(before, after, _) := Cut rest0 $"?" in (before, false, after).

(** The authority split of [parse]: [rest] begins with two slashes; the
    authority runs up to the next slash, the path starts there. *)
Definition splitAuthority (rest : gostring) : gostring * gostring :=
  let authority := drop 2 rest in
  match index_of authority $"/" with
  | Some i => (take i authority, drop i authority)
  | None => (authority, [])
  end.

(** [parse(rawURL, viaRequest)] *)
Definition parse (rawURL : gostring) (viaRequest : bool) : option URL :=
  if stringContainsCTLByte rawURL then None
  else if is_empty rawURL && viaRequest then None
  else if streq rawURL $"*" then Some (withPath zeroURL $"*")
  else
    '(scheme0, rest0) ← getScheme rawURL;
    let scheme := ToLower scheme0 in
    let '(rest, force, query) := splitQuery rest0 in
    if negb (HasPrefix rest $"/") && negb (is_empty scheme) then
      Some (mkURL scheme rest None [] [] [] false force query [] [])
    else if negb (HasPrefix rest $"/") && viaRequest then None
    else if negb (HasPrefix rest $"/")
            && Contains (Cut rest $"/").1.1 $":" then None
    else if (negb (is_empty scheme)
             || (negb viaRequest && negb (HasPrefix rest $"///")))
            && HasPrefix rest $"//" then
      let '(authority, rest') := splitAuthority rest in
      '(user, host) ← parseAuthority authority;
      setPath (mkURL scheme [] user host [] [] false force query [] []) rest'
    else if negb (is_empty scheme) && HasPrefix rest $"/" then
      setPath (mkURL scheme [] None [] [] [] true force query [] []) rest
    else setPath (mkURL scheme [] None [] [] [] false force query [] []) rest.

(** [Parse(rawURL)] *)
Definition Parse (rawURL : gostring) : option URL :=
  let '(u, frag, _) := Cut rawURL $"#" in
  url ← parse u false;
  if is_empty frag then Some url else setFragment url frag.

(** [ParseRequestURI(rawURL)] *)
Definition ParseRequestURI (rawURL : gostring) : option URL :=
  parse rawURL true.

(** [(u *URL) EscapedPath()] *)
Definition EscapedPath (u : URL) : gostring :=
  if negb (is_empty (RawPath u)) && validEncoded (RawPath u) encodePath
     && match unescape (RawPath u) encodePath with
        | Some p => streq p (Path u)
        | None => false
        end
  then RawPath u
  else if streq (Path u) $"*" then $"*"
  else escape (Path u) encodePath.

(** [(u *URL) EscapedFragment()] *)
Definition EscapedFragment (u : URL) : gostring :=
  if negb (is_empty (RawFragment u)) && validEncoded (RawFragment u) encodeFragment
     && match unescape (RawFragment u) encodeFragment with
        | Some f => streq f (Fragment u)
        | None => false
        end
  then RawFragment u
  else escape (Fragment u) encodeFragment.

(** [(u *Userinfo) String()] *)
Definition Userinfo_String (ui : Userinfo) : gostring :=
  escape (username ui) encodeUserPassword
  ++ (if passwordSet ui then $":" ++ escape (password ui) encodeUserPassword else []).

(** [(u *URL) String()]; the [strings.Builder] is the accumulated prefix. *)
Definition URL_String (u : URL) : gostring :=
  let buf0 := if is_empty (Scheme u) then [] else Scheme u ++ $":" in
  let buf1 :=
    if negb (is_empty (Opaque u)) then buf0 ++ Opaque u
    else
      let has_user := match User u with Some _ => true | None => false end in
      let bufa :=
        if negb (is_empty (Scheme u)) || negb (is_empty (Host u)) || has_user then
          if OmitHost u && is_empty (Host u) && negb has_user then buf0
          else
            buf0
            ++ (if negb (is_empty (Host u)) || negb (is_empty (Path u)) || has_user
                then $"//" else [])
            ++ (match User u with
                | Some ui => Userinfo_String ui ++ $"@"
                | None => []
                end)
            ++ (if is_empty (Host u) then [] else escape (Host u) encodeHost)
        else buf0 in
      let path := EscapedPath u in
      let bufb :=
        if negb (is_empty path) && negb (HasPrefix path $"/")
           && negb (is_empty (Host u))
        then bufa ++ $"/" else bufa in
      let bufc :=
        if is_empty bufb && Contains (Cut path $"/").1.1 $":"
        then bufb ++ $"./" else bufb in
      bufc ++ path in
  let buf2 :=
    if ForceQuery u || negb (is_empty (RawQuery u))
    then buf1 ++ $"?" ++ RawQuery u else buf1 in
  if is_empty (Fragment u) then buf2
  else buf2 ++ $"#" ++ EscapedFragment u.

End GoURL.

Import GoURL.

(** ** The two regular expressions

    [regexp.ReplaceAllFunc] replaces the successive leftmost matches, each
    search resuming where the previous match ended.  Both patterns of the
    program are a literal followed by greedy runs over a character class, so
    a match starting at a position, when there is one, is unique; neither
    pattern matches the empty string.  Bytes above 0x7f belong to no class. *)

Module GoRegexp.

(** The class [[a-zA-Z0-9_:#@%/;$~_?+-=\.&]] of the CSS pattern.  Inside the
    brackets [+-=] is the range from [+] (0x2b) to [=] (0x3d). *)
Definition css_class (c : ascii) : bool :=
  is_alnum c || one_of $"_:#@%/;$~?.&" c || byte_in 43 61 c.

(** The class [[a-zA-Z0-9_:#@%/;$()~_?+-=\.&]] of the body pattern. *)
Definition url_class (c : ascii) : bool :=
  css_class c || one_of $"()" c.

(** The longest prefix of [s] made of bytes of the class [cls]. *)
Fixpoint run (cls : ascii -> bool) (s : gostring) : gostring :=
  match s with
  | c :: s' => if cls c then c :: run cls s' else []
  | [] => []
  end.

(** Length of the match of the body pattern, the literal [https://] and a
    greedy run of [url_class], starting at the head of [s]. *)
Definition match_https (s : gostring) : option nat :=
  if HasPrefix s $"https://"
  then Some (8 + length (run url_class (drop 8 s)))%nat
  else None.

Definition is_quote (c : ascii) : bool :=
  Ascii.eqb c "'" || Ascii.eqb c dquote.

(** An optional quote at the head of [s]: how many bytes it takes. *)
Definition opt_quote (s : gostring) : nat :=
  match s with
  | c :: _ => if is_quote c then 1%nat else 0%nat
  | [] => 0%nat
  end.

(** Length of the match of the CSS pattern starting at the head of [s]: the
    literal [url] and an opening parenthesis, an optional quote, a greedy run
    of [css_class], an optional quote, a closing parenthesis. *)
Definition match_cssurl (s : gostring) : option nat :=
  if HasPrefix s $"url(" then
    let s1 := drop 4 s in
    let q1 := opt_quote s1 in
    let s2 := drop q1 s1 in
    let r := length (run css_class s2) in
    let s3 := drop r s2 in
    let q2 := opt_quote s3 in
    if HasPrefix (drop q2 s3) $")" then Some (4 + q1 + r + q2 + 1)%nat
    else None
  else None.

Section ReplaceAllFunc.
Context {St : Type}.
(** [matcher s]: the length of the match starting at the head of [s]. *)
Variable matcher : gostring -> option nat.
(** The callback; it may update the state it closes over. *)
Variable repl : gostring -> St -> gostring * St.

(** [skip] counts the bytes of the current match still to be passed. *)
Fixpoint replace_loop (skip : nat) (src : gostring) (st : St)
  : gostring * St :=
  match src with
  | [] => ([], st)
  | c :: src' =>
      match skip with
      | S k => replace_loop k src' st
      | O =>
          match matcher src with
          | Some n =>
              let '(r, st1) := repl (take n src) st in
              let '(out, st2) := replace_loop (n - 1) src' st1 in
              (r ++ out, st2)
          | None =>
              let '(out, st1) := replace_loop O src' st in
              (c :: out, st1)
          end
      end
  end.

Definition ReplaceAllFunc (src : gostring) (st : St) : gostring * St :=
  replace_loop O src st.
End ReplaceAllFunc.

End GoRegexp.

Import GoRegexp.

(** ** [net/http] values *)

(** [http.Header]: a map from header name to its list of values. *)
Abbreviation Header := (gmap gostring (list gostring)).

(** [Header.Get(key)], at a key already in canonical form (all keys the
    program passes are): the first value, or the empty string. *)
Definition Header_Get (h : Header) (key : gostring) : gostring :=
  match h !! key with
  | Some (v :: _) => v
  | _ => []
  end.

(** [Header.Set(key, value)], at a canonical key. *)
Definition Header_Set (h : Header) (key value : gostring) : Header :=
  <[key := [value]]> h.

(** The fields of [http.Request] the program reads.  [ReqBody] is what
    [ioutil.ReadAll(req.Body)] returns, [None] for an error. *)
Record Request : Type := mkRequest {
  Method : gostring;
  ReqURL : URL;
  ReqHeader : Header;
  ReqHost : gostring;
  Close : bool;
  ReqBody : option gostring;
  RemoteAddr : gostring
}.

(** The fields of [http.Response] the program reads.  [ResBody] holds the
    bytes of the body stream, [None] when reading them fails. *)
Record Response : Type := mkResponse {
  StatusCode : Z;
  Status : gostring;
  ResHeader : Header;
  ResBody : option gostring
}.

Definition withURL (req : Request) (u : URL) : Request :=
  mkRequest (Method req) u (ReqHeader req) (ReqHost req) (Close req)
            (ReqBody req) (RemoteAddr req).

Definition withResHeader (res : Response) (h : Header) : Response :=
  mkResponse (StatusCode res) (Status res) h (ResBody res).

Definition withResBody (res : Response) (b : option gostring) : Response :=
  mkResponse (StatusCode res) (Status res) (ResHeader res) b.

(** ** sslstrip.go *)

(** [clientLink] stores client ip and url pair. *)
Record clientLink : Type := mkClientLink {
  clientIP : gostring;
  url : gostring
}.

#[global] Instance clientLink_eq_dec : EqDecision clientLink.
Proof. solve_decision. Defined.

#[global] Instance clientLink_countable : Countable clientLink.
Proof.
  refine (inj_countable' (fun cl => (clientIP cl, url cl))
                         (fun p => mkClientLink p.1 p.2) _).
  by intros [].
Defined.

(** [storedLinks] maps stripped urls to their originals. *)
Abbreviation LinkMap := (gmap clientLink gostring).

(** [getLink]: the original url for the stripped one, and whether it exists. *)
Definition getLink (storedLinks : LinkMap) (cl : clientLink) : option gostring :=
  storedLinks !! cl.

(** [setLink] *)
Definition setLink (storedLinks : LinkMap) (cl : clientLink) (link : gostring)
  : LinkMap :=
  <[cl := link]> storedLinks.

(** [normalizeIP] extracts the IP part from the RemoteAddr. *)
Definition normalizeIP (remoteAddr : gostring) : gostring :=
  SplitFirst remoteAddr $":".

(** [normalizeUrl]; [None] is the error result (whose string is empty). *)
Definition normalizeUrl (link : gostring) : option gostring :=
  originalUrl ← Parse link;
  let originalUrl' :=
    if is_empty (Path originalUrl) then withPath originalUrl $"/"
    else originalUrl in
  Some (URL_String originalUrl').

(** [ignoredRequestHeaders] *)
Definition ignoredRequestHeaders : gset gostring :=
  {[ $"Cache-Control"; $"If-Modified-Since"; $"If-None-Match" ]}.

(** [ignoredResponseHeaders] *)
Definition ignoredResponseHeaders : gset gostring :=
  {[ $"Content-Length"; $"Public-Key-Pins"; $"Public-Key-Pins-Report-Only";
     $"Strict-Transport-Security" ]}.

(** The loops [for key, value := range src { if !ignored { dst[key] = value } }];
    the keys of a map are distinct, so the iteration order does not matter. *)
Definition copyHeaders (ignored : gset gostring) (src dst : Header) : Header :=
  filter (fun kv => kv.1 ∉ ignored) src ∪ dst.

(** *** [stripResponse], pass by pass *)

(** The [Location] step (lines 134-149): [None] is the error return; otherwise
    the updated header and link map. *)
Definition stripLocation (remoteAddr : gostring) (h : Header) (m : LinkMap)
  : option (Header * LinkMap) :=
  let location := Header_Get h $"Location" in
  if HasPrefix location $"https" then
    strippedLocation ← normalizeUrl ($"http" ++ drop 5 location);
    let forgedKey := mkClientLink (normalizeIP remoteAddr) strippedLocation in
    Some (Header_Set h $"Location" strippedLocation, setLink m forgedKey location)
  else Some (h, m).

(** The body of the cookie loop (lines 154-157). *)
Definition desecure (cookie : gostring) : gostring :=
  let idx := LastIndex cookie $"Secure" in
  if negb (idx =? -1) then
    take (Z.to_nat idx) cookie ++ drop (Z.to_nat (idx + 6)) cookie
  else cookie.

(** The cookie step (lines 152-159); the loop writes into the slice the
    header map holds. *)
Definition stripCookies (h : Header) : Header :=
  match h !! $"Set-Cookie" with
  | Some cookies => <[ $"Set-Cookie" := map desecure cookies ]> h
  | None => h
  end.

(** The callback of the body pattern (lines 170-186). *)
Definition stripLink (remoteAddr : gostring) (u : gostring) (m : LinkMap)
  : gostring * LinkMap :=
  match normalizeUrl ($"http://" ++ drop 8 u) with
  | None => (u, m)
  | Some strippedUrl =>
      let key := mkClientLink (normalizeIP remoteAddr) strippedUrl in
      (strippedUrl, setLink m key u)
  end.

(** The body pass (lines 169-186). *)
Definition stripBody (remoteAddr : gostring) (body : gostring) (m : LinkMap)
  : gostring * LinkMap :=
  ReplaceAllFunc match_https (stripLink remoteAddr) body m.

(** The absolute url the CSS callback builds (lines 198-207). *)
Definition cssAbsoluteUrl (req : Request) (u : gostring) : gostring :=
  let scheme := Scheme (ReqURL req) in
  let n := length u in
  if HasPrefix u $"url('/" || HasPrefix u ($"url(" ++ [dquote] ++ $"/") then
    scheme ++ $"://" ++ ReqHost req ++ slice u 5 (n - 1)
  else if HasPrefix u $"url(/" then
    scheme ++ $"://" ++ ReqHost req ++ slice u 4 (n - 1)
  else if HasPrefix u $"url('" || HasPrefix u ($"url(" ++ [dquote]) then
    scheme ++ $"://" ++ ReqHost req ++ Path (ReqURL req) ++ $"/" ++ slice u 5 (n - 1)
  else if HasPrefix u $"url(" then
    scheme ++ $"://" ++ ReqHost req ++ Path (ReqURL req) ++ $"/" ++ slice u 4 (n - 1)
  else [].

(** [strippedUrl] of the CSS callback (lines 209-212). *)
Definition cssStrippedUrl (req : Request) (absoluteUrl : gostring) : gostring :=
  if streq (Scheme (ReqURL req)) $"https" then $"http" ++ drop 5 absoluteUrl
  else absoluteUrl.

(** The test that makes the CSS callback return its match untouched
    (lines 193-196). *)
Definition cssLeft (u : gostring) : bool :=
  HasPrefix u $"url('http" || HasPrefix u ($"url(" ++ [dquote] ++ $"http")
  || HasPrefix u $"url(http" || Contains u $"base64".

(** The callback of the CSS pattern (lines 190-229). *)
Definition stripCssUrl (req : Request) (u : gostring) (m : LinkMap)
  : gostring * LinkMap :=
  if cssLeft u then (u, m)
  else
    let absoluteUrl := cssAbsoluteUrl req u in
    let strippedUrl := cssStrippedUrl req absoluteUrl in
    let key := mkClientLink (normalizeIP (RemoteAddr req)) strippedUrl in
    (($"url('" ++ strippedUrl ++ $"')"), setLink m key absoluteUrl).

(** The CSS pass (lines 188-230). *)
Definition stripCss (req : Request) (h : Header) (body : gostring) (m : LinkMap)
  : gostring * LinkMap :=
  if Contains (Header_Get h $"Content-Type") $"text/css"
  then ReplaceAllFunc match_cssurl (stripCssUrl req) body m
  else (body, m).

(** [stripResponse(req, res)].  It mutates the header of [res] and the link
    map also when it returns an error, so both are returned beside the
    result: the stripped body, or [None] for the error. *)
Definition stripResponse (req : Request) (res : Response) (m : LinkMap)
  : option gostring * Response * LinkMap :=
  match stripLocation (RemoteAddr req) (ResHeader res) m with
  | None => (None, res, m)
  | Some (h1, m1) =>
      let h2 := stripCookies h1 in
      let res2 := withResHeader res h2 in
      match ResBody res with
      | None => (None, res2, m1)
      | Some body =>
          let '(body1, m2) := stripBody (RemoteAddr req) body m1 in
          let '(body2, m3) := stripCss req h2 body1 m2 in
          (Some body2, res2, m3)
      end
  end.

(** What the handler wrote to the [http.ResponseWriter]. *)
Record Written : Type := mkWritten {
  w_header : Header;
  w_status : Z;
  w_body : gostring
}.

Section Server.
(** The upstream round trip [client.Do(req)]; [None] is its error. *)
Variable client_Do : Request -> option Response.
(** [(u *URL) ResolveReference(ref)] of [net/url]. *)
Variable ResolveReference : URL -> URL -> URL.
(** [compress/gzip]: [gzip_NewReader] tells whether the header of the
    stream is accepted, [gunzip] is what reading the reader to its end
    returns, [gzip] what a writer holds after Write, Flush and Close. *)
Variable gzip_NewReader : gostring -> bool.
Variable gunzip : gostring -> option gostring.
Variable gzip : gostring -> gostring.

(** [(u *URL) Parse(ref)] *)
Definition URL_Parse (u : URL) (ref : gostring) : option URL :=
  refURL ← Parse ref;
  Some (ResolveReference u refURL).

(** The key [makeRequest] looks up (lines 104-109); the error of
    [normalizeUrl] is dropped and its string result used. *)
Definition requestKey (req : Request) : clientLink :=
  let u := default [] (normalizeUrl (URL_String (ReqURL req))) in
  mkClientLink (normalizeIP (RemoteAddr req)) u.

(** Lines 104-120 of [makeRequest]: the request as it is handed to
    [client.Do], or [None] when restoring the cached link fails. *)
Definition restoreLink (m : LinkMap) (req : Request) : option Request :=
  match getLink m (requestKey req) with
  | Some link =>
      originalUrl ← URL_Parse (ReqURL req) link;
      Some (withURL req originalUrl)
  | None => Some req
  end.

(** [makeRequest(req)]; [req] is a pointer, so the caller sees the
    restored url too. *)
Definition makeRequest (m : LinkMap) (req : Request)
  : option (Request * Response) :=
  req' ← restoreLink m req;
  res ← client_Do req';
  Some (req', res).

(** Lines 272-280 of [ServeHTTP]: the body is read through a gzip reader
    when the response is compressed. *)
Definition decompress (res : Response) : option Response :=
  if streq (Header_Get (ResHeader res) $"Content-Encoding") $"gzip" then
    match ResBody res with
    | Some raw =>
        if gzip_NewReader raw then Some (withResBody res (gunzip raw))
        else None
    | None => None
    end
  else Some res.

(** Lines 293-301 of [ServeHTTP]. *)
Definition recompress (res : Response) (strippedBody : gostring) : gostring :=
  if streq (Header_Get (ResHeader res) $"Content-Encoding") $"gzip"
  then gzip strippedBody else strippedBody.

(** Lines 246-262 of [ServeHTTP]: the request to be made. *)
Definition buildProxyReq (req : Request) (reqBody : gostring) : Request :=
  let proxyHeaders := copyHeaders ignoredRequestHeaders (ReqHeader req) ∅ in
  mkRequest (Method req) (ReqURL req) proxyHeaders (ReqHost req)
            (Close req) (Some reqBody) (RemoteAddr req).

(** [ServeHTTP]: what is written to the victim ([None] when the handler
    returns early) and the link map afterwards.  [header0] is the header
    map of the response writer on entry.  The records printed to the logger
    and to stderr do not influence either and are left out. *)
Definition ServeHTTP (header0 : Header) (req : Request) (m : LinkMap)
  : option Written * LinkMap :=
  match ReqBody req with
  | None => (None, m)
  | Some reqBody =>
      match makeRequest m (buildProxyReq req reqBody) with
      | None => (None, m)
      | Some (proxyReq', res) =>
          match decompress res with
          | None => (None, m)
          | Some res1 =>
              match stripResponse proxyReq' res1 m with
              | (None, _, m') => (None, m')
              | (Some strippedBody, res2, m') =>
                  let body := recompress res2 strippedBody in
                  let header := copyHeaders ignoredResponseHeaders
                                  (ResHeader res2) header0 in
                  (Some (mkWritten header (StatusCode res2) body), m')
              end
          end
      end
  end.
End Server.







(** The matches of the body pattern in [body], in the order in which
    [ReplaceAllFunc] hands them to the callback. *)
Definition httpsMatches (body : gostring) : list gostring :=
  (ReplaceAllFunc match_https (fun u acc => (u, acc ++ [u])) body []).2.


(** ** A concrete setting

    An upstream that answers every request with one fixed response, a
    reference resolution that takes the (absolute) reference as it is, and
    a framing codec standing in for gzip: two magic bytes before the data. *)

Module Scenario.

Definition fixed_upstream (res : Response) : Request -> option Response :=
  fun _ => Some res.

Definition resolve_absolute (u ref : URL) : URL := ref.

Definition magic : gostring := [ascii_of_N 31; ascii_of_N 139].

Definition frame (b : gostring) : gostring := magic ++ b.

Definition framed (s : gostring) : bool := HasPrefix s magic.

Definition unframe (s : gostring) : option gostring :=
  if HasPrefix s magic then Some (drop 2 s) else None.

(** The handler run against the fixed upstream, the response writer starting
    with an empty header map. *)
Definition serve_fixed (res : Response) (req : Request) (m : LinkMap)
  : option Written * LinkMap :=
  ServeHTTP (fixed_upstream res) resolve_absolute framed unframe frame ∅ req m.

Definition nothing_written : Written := mkWritten ∅ 0 [].

Definition written (r : option Written * LinkMap) : Written :=
  default nothing_written r.1.

(** A request as the server hands it to the handler when the request line
    holds an absolute url [http://host/path]. *)
Definition victim_get (host path : gostring) : Request :=
  mkRequest $"GET" (mkURL $"http" [] None host path [] false false [] [] [])
            ∅ host false (Some []) $"10.0.0.7:5123".

(** A request whose url carries scheme and host, as the handler sees it once
    [makeRequest] has restored a cached https link. *)
Definition https_get (host path : gostring) : Request :=
  mkRequest $"GET" (mkURL $"https" [] None host path [] false false [] [] [])
            ∅ host false (Some []) $"10.0.0.7:5123".

Definition response (code : Z) (h : Header) (body : gostring) : Response :=
  mkResponse code $"" h (Some body).

Definition cookie_response : Response :=
  response 200 {[ $"Set-Cookie" := [ $"sid=abc; Path=/; Secure; HttpOnly" ] ]}
           $"hello".

Definition two_Secure_response : Response :=
  response 200 {[ $"Set-Cookie" := [ $"sid=1; Secure; Secure" ] ]} $"hello".

(** The response headers of a stylesheet. *)
Definition css_header : Header := {[ $"Content-Type" := [ $"text/css" ] ]}.


(** A compressed page without any https link. *)
Definition gzip_response : Response :=
  response 200 {[ $"Content-Encoding" := [ $"gzip" ] ]} (frame $"<p>plain page</p>").


Definition page_response : Response :=
  response 200 {[ $"Content-Type" := [ $"text/html" ] ]} $"<a href=https://x.test/a>".


(** The same page, compressed. *)
Definition gzip_page_response : Response :=
  response 200 {[ $"Content-Type" := [ $"text/html" ];
                  $"Content-Encoding" := [ $"gzip" ];
                  $"Content-Length" := [ $"46" ] ]}
           (frame $"<a href=https://x.test/a>").

Definition redirect_response : Response :=
  response 302 {[ $"Location" := [ $"https://bank.example/login" ] ]} $"".


End Scenario.

Import Scenario.

(** ** The redirect-following prototype

    The first program of [src/unnamed/part_000]: a proxy that follows the
    redirects of the upstream itself and carries the cookies along. *)

Module Prototype.

(** The fields of [http.Request] the prototype sets.  The body is a stream
    shared with the incoming request; [HasBody] tells whether the field is
    set. *)
Record PRequest : Type := mkPRequest {
  PMethod : gostring;
  PURL : URL;
  PHeader : Header;
  PClose : bool;
  HasBody : bool
}.

(** The errors of the prototype's [makeRequest]. *)
Inductive error : Type :=
  | StoppedAfter10Redirects
  | ClientError
  | WrongLocationRedirect
  | FailedToParseLocation.

(** [getCookieKey]: [strings.SplitN(cookie, "=", 2)[0]]. *)
Definition getCookieKey (cookie : gostring) : gostring :=
  SplitFirst cookie $"=".

(** The inner loop of [getHeaderWithCookies]: the first cookie with the key
    of [value] is overwritten; the flag is [shouldOverwrite]. *)
Fixpoint overwriteCookie (cookies : list gostring) (value : gostring)
  : list gostring * bool :=
  match cookies with
  | [] => ([], false)
  | cookie :: rest =>
      if streq (getCookieKey cookie) (getCookieKey value) then (value :: rest, true)
      else let '(rest', found) := overwriteCookie rest value in (cookie :: rest', found)
  end.

(** The body of the outer loop of [getHeaderWithCookies]. *)
Definition mergeCookie (oldHeaders : Header) (value : gostring) : Header :=
  let cookies := default [] (oldHeaders !! $"Cookie") in
  let '(cookies', shouldOverwrite) := overwriteCookie cookies value in
  if shouldOverwrite then <[ $"Cookie" := cookies' ]> oldHeaders
  else <[ $"Cookie" := cookies ++ [value] ]> oldHeaders.

(** The cookies a header map carries, [h["Cookie"]], and the keys of a list
    of cookies. *)
Definition cookiesOf (h : Header) : list gostring := default [] (h !! $"Cookie").

Definition keysOf (cookies : list gostring) : list gostring :=
  map getCookieKey cookies.

(** [getHeaderWithCookies] *)
Definition getHeaderWithCookies (oldHeaders newHeaders : Header) : Header :=
  match newHeaders !! $"Set-Cookie" with
  | Some cookies => foldl mergeCookie oldHeaders cookies
  | None => oldHeaders
  end.

(** The [switch] of [makeRequest] on the status code: [redirectMethod],
    [shouldRedirect] and [includeBody]. *)
Definition redirectPlan (method : gostring) (res : Response)
  : gostring * bool * bool :=
  let code := StatusCode res in
  if (code =? 301) || (code =? 302) || (code =? 303) then
    (if negb (streq method $"GET") && negb (streq method $"HEAD")
     then $"GET" else method, true, false)
  else if (code =? 307) || (code =? 308) then
    (method, negb (is_empty (Header_Get (ResHeader res) $"Location")), true)
  else ([], false, false).

(** A response the redirect switch does not follow. *)
Definition final (res : Response) : Prop :=
  StatusCode res <> 301 /\ StatusCode res <> 302 /\ StatusCode res <> 303 /\
  (StatusCode res = 307 \/ StatusCode res = 308 ->
   Header_Get (ResHeader res) $"Location" = []).

Section Follow.
Variable client_Do : PRequest -> option Response.
Variable ResolveReference : URL -> URL -> URL.

(** [makeRequest(req, redirectCount)] by recursion on [10 - redirectCount],
    the number of requests it may still make: the test
    [redirectCount >= 10] is the case [O], the call with [redirectCount+1]
    the recursive one.  The first component lists the requests handed to
    [client.Do], in order; the second is what the function returns. *)
Fixpoint follow (budget : nat) (req : PRequest)
  : list PRequest * (error + Response) :=
  match budget with
  | O => ([], inl StoppedAfter10Redirects)
  | S budget' =>
      match client_Do req with
      | None => ([req], inl ClientError)
      | Some res =>
          let '(redirectMethod, shouldRedirect, includeBody) :=
            redirectPlan (PMethod req) res in
          if shouldRedirect then
            let loc := Header_Get (ResHeader res) $"Location" in
            if is_empty loc then ([req], inl WrongLocationRedirect)
            else
              match URL_Parse ResolveReference (PURL req) loc with
              | None => ([req], inl FailedToParseLocation)
              | Some url =>
                  let '(sent, r) :=
                    follow budget'
                      (mkPRequest redirectMethod url
                         (getHeaderWithCookies (PHeader req) (ResHeader res))
                         (PClose req) (includeBody && HasBody req)) in
                  (req :: sent, r)
              end
          else ([req], inr res)
      end
  end.

(** [makeRequest(req, redirectCount)] *)
Definition makeRequest (req : PRequest) (redirectCount : nat) : error + Response :=
  (follow (10 - redirectCount) req).2.

(** The requests [makeRequest(req, redirectCount)] hands to [client.Do]. *)
Definition dispatched (req : PRequest) (redirectCount : nat) : list PRequest :=
  (follow (10 - redirectCount) req).1.

(** [ServeHTTP] of the prototype: every header of the final response is
    copied to the writer, then status and body are written. *)
Definition ServeHTTP (header0 : Header) (req : Request) : option Written :=
  match ReqBody req with
  | None => None
  | Some _ =>
      let proxyReq := mkPRequest (Method req) (ReqURL req) (ReqHeader req)
                                 (Close req) true in
      match makeRequest proxyReq 1 with
      | inl _ => None
      | inr res =>
          match ResBody res with
          | None => None
          | Some body =>
              Some (mkWritten (ResHeader res ∪ header0) (StatusCode res) body)
          end
      end
  end.
End Follow.

End Prototype.

(** * Properties *)

(** ** Tactics *)

(** Two string literals differ. *)
Ltac key_neq := let H := fresh in intros H; vm_compute in H; discriminate H.

(** A header name is none of the ignored response headers. *)
Ltac not_ignored :=
  unfold ignoredResponseHeaders;
  rewrite ?elem_of_union, ?elem_of_singleton;
  let H := fresh in
  intros H; repeat (destruct H as [H|H]); vm_compute in H; discriminate H.

(** A run of [serve_fixed] writes a response. *)
Ltac run_succeeds :=
  match goal with
  | |- _ = (Some (written ?r), ?r.2) =>
      change (r = (Some (written r), r.2));
      let H := fresh in
      assert (r.1 <> None) as H by (vm_compute; discriminate);
      unfold written; destruct r as [[?|] ?]; [reflexivity|done]
  end.

(** A fact about one byte, by going through all bytes. *)
Ltac by_bytes c :=
  destruct c as [[] [] [] [] [] [] [] []]; vm_compute; intros; try discriminate;
  repeat split; try discriminate; reflexivity.


(** ** Strings *)

Lemma streq_eq (a b : gostring) : streq a b = true <-> a = b.
Proof.
  revert b; induction a as [|x a IH]; intros [|y b]; simpl; try (split; congruence).
  rewrite andb_true_iff, Ascii.eqb_eq, IH. split; [intros []|intros [=]]; by subst.
Qed.

Lemma streq_refl (a : gostring) : streq a a = true.
Proof. by apply streq_eq. Qed.

Lemma HasPrefix_app (p t : gostring) : HasPrefix (p ++ t) p = true.
Proof. induction p as [|c p IH]; simpl; [done|]. by rewrite Ascii.eqb_refl. Qed.

Lemma HasPrefix_inv (s p : gostring) :
  HasPrefix s p = true -> s = p ++ drop (length p) s.
Proof.
  revert s; induction p as [|c p IH]; intros [|x s] H; simpl in *; try done.
  destruct (Ascii.eqb_spec x c); [subst|done]. f_equal. by apply IH.
Qed.


Lemma HasPrefix_take_ge (s p : gostring) (n : nat) :
  HasPrefix s p = true -> (length p <= n)%nat -> HasPrefix (take n s) p = true.
Proof.
  intros H Hn. rewrite (HasPrefix_inv _ _ H).
  replace n with (length p + (n - length p))%nat by lia.
  rewrite take_app_add. apply HasPrefix_app.
Qed.

Lemma index_of_Some (s p : gostring) (i : nat) :
  index_of s p = Some i ->
  HasPrefix (drop i s) p = true /\
  forall j, (j < i)%nat -> HasPrefix (drop j s) p = false.
Proof.
  revert i; induction s as [|c s IH]; intros i; simpl.
  - destruct (HasPrefix [] p) eqn:E; [|done]. intros [= <-]. split; [done|lia].
  - destruct (HasPrefix (c :: s) p) eqn:E.
    + intros [= <-]. split; [done|lia].
    + destruct (index_of s p) as [k|]; [|done]. simpl. intros [= <-].
      destruct (IH k eq_refl) as [H1 H2]. split; [done|].
      intros [|j] Hj; [done|]. simpl. apply H2. lia.
Qed.

Lemma index_of_None (s p : gostring) :
  index_of s p = None -> forall j, HasPrefix (drop j s) p = false.
Proof.
  induction s as [|c s IH]; simpl.
  - destruct (HasPrefix [] p) eqn:E; [done|]. intros _ j. by rewrite drop_nil.
  - destruct (HasPrefix (c :: s) p) eqn:E; [done|].
    destruct (index_of s p); [done|]. intros _ [|j]; [done|]. simpl. by apply IH.
Qed.

Lemma last_index_of_Some (s p : gostring) (i : nat) :
  last_index_of s p = Some i ->
  HasPrefix (drop i s) p = true /\
  forall j, (j <= length s)%nat -> HasPrefix (drop j s) p = true -> (j <= i)%nat.
Proof.
  revert i; induction s as [|c s IH]; intros i; simpl.
  - destruct (HasPrefix [] p) eqn:E; [|done]. intros [= <-]. split; [done|].
    intros j Hj _. lia.
  - destruct (last_index_of s p) as [k|] eqn:Ek.
    + intros [= <-]. destruct (IH k eq_refl) as [H1 H2]. split; [done|].
      intros [|j] Hj Hp; [lia|]. simpl in *. apply H2 in Hp; lia.
    + destruct (HasPrefix (c :: s) p) eqn:E; [|done]. intros [= <-].
      split; [done|]. intros [|j] Hj Hp; [lia|]. simpl in *.
      exfalso. clear IH E. revert j Hj Hp.
      induction s as [|d s IHs]; intros j Hj Hp; simpl in *.
      * rewrite drop_nil in Hp. by rewrite Hp in Ek.
      * destruct (last_index_of s p) eqn:E2; [done|].
        destruct (HasPrefix (d :: s) p) eqn:E3; [done|].
        destruct j as [|j]; simpl in *; [congruence|].
        apply (IHs eq_refl j); [lia|done].
Qed.

Lemma last_index_of_None (s p : gostring) :
  last_index_of s p = None -> forall j, HasPrefix (drop j s) p = false.
Proof.
  induction s as [|c s IH]; simpl.
  - destruct (HasPrefix [] p) eqn:E; [done|]. intros _ j. by rewrite drop_nil.
  - destruct (last_index_of s p); [done|].
    destruct (HasPrefix (c :: s) p) eqn:E; [done|].
    intros _ [|j]; [done|]. simpl. by apply IH.
Qed.

Lemma Contains_false (s p : gostring) :
  Contains s p = false <-> forall j, HasPrefix (drop j s) p = false.
Proof.
  unfold Contains, Index. destruct (index_of s p) as [i|] eqn:E.
  - split; [intros H; apply Z.leb_gt in H; lia|].
    intros H. destruct (index_of_Some _ _ _ E) as [H1 _]. by rewrite H in H1.
  - split; [intros _; by apply index_of_None|done].
Qed.

Lemma index_of_app_byte (p rest : gostring) (c : ascii) :
  Forall (fun x => x <> c) p ->
  index_of (p ++ rest) [c] = (fun i => (length p + i)%nat) <$> index_of rest [c].
Proof.
  induction 1 as [|x p Hx Hp IH]; simpl app.
  - by destruct (index_of rest [c]).
  - cbn [index_of HasPrefix]. destruct (Ascii.eqb_spec x c) as [->|_]; [done|].
    rewrite IH. by destruct (index_of rest [c]).
Qed.

Lemma Cut_app_byte (p rest : gostring) (c : ascii) :
  Forall (fun x => x <> c) p ->
  (Cut (p ++ rest) [c]).1.1 = p ++ (Cut rest [c]).1.1.
Proof.
  intros Hp. unfold Cut. rewrite (index_of_app_byte _ _ _ Hp).
  destruct (index_of rest [c]) as [i|]; simpl; [|done].
  by rewrite take_app_add.
Qed.



Lemma index_of_first (p rest : gostring) (c : ascii) :
  Forall (fun x => x <> c) p -> index_of (p ++ c :: rest) [c] = Some (length p).
Proof.
  intros Hp. rewrite (index_of_app_byte _ _ _ Hp). cbn [index_of HasPrefix].
  rewrite Ascii.eqb_refl. simpl. f_equal. lia.
Qed.







(** ** Parsing and printing urls *)











Lemma splitQuery_slashes (r : gostring) :
  exists r', (splitQuery ($"//" ++ r)).1.1 = $"//" ++ r'.
Proof.
  unfold splitQuery. destruct (_ && _) eqn:E.
  - destruct r as [|c r]; [done|]. exists (take (length r) (c :: r)). reflexivity.
  - exists (Cut r $"?").1.1.
    assert ((Cut ($"//" ++ r) $"?").1.1 = $"//" ++ (Cut r $"?").1.1) as H
      by (apply (Cut_app_byte $"//"); repeat constructor; discriminate).
    destruct (Cut ($"//" ++ r) $"?") as [[before after] found]. exact H.
Qed.


Lemma setPath_fields (u v : URL) (p : gostring) :
  setPath u p = Some v ->
  Scheme v = Scheme u /\ Opaque v = Opaque u /\ OmitHost v = OmitHost u.
Proof.
  unfold setPath. destruct (unescape p encodePath); simpl; [|done].
  by intros [= <-].
Qed.

Lemma setFragment_fields (u v : URL) (f : gostring) :
  setFragment u f = Some v ->
  Scheme v = Scheme u /\ Opaque v = Opaque u /\ OmitHost v = OmitHost u
  /\ Path v = Path u.
Proof.
  unfold setFragment. destruct (unescape f encodeFragment); simpl; [|done].
  by intros [= <-].
Qed.

(** *** Urls with the scheme [http] *)

Lemma parse_http (rest : gostring) (viaRequest : bool) (u : URL) :
  parse ($"http://" ++ rest) viaRequest = Some u ->
  Scheme u = $"http" /\ Opaque u = [] /\ OmitHost u = false.
Proof.
  unfold parse. destruct (stringContainsCTLByte _); [done|].
  change (is_empty ($"http://" ++ rest)) with false.
  change (streq ($"http://" ++ rest) $"*") with false.
  change (getScheme ($"http://" ++ rest)) with (Some ($"http", $"//" ++ rest)).
  cbn [andb mbind option_bind]. 
  destruct (splitQuery_slashes rest) as [r' Hr].
  destruct (splitQuery ($"//" ++ rest)) as [[rest1 force] query].
  simpl in Hr. subst rest1.
  change (HasPrefix ($"//" ++ r') $"/") with true.
  change (HasPrefix ($"//" ++ r') $"//") with true.
  change (is_empty (ToLower $"http")) with false.
  cbn [negb andb orb].
  destruct (splitAuthority _) as [authority rest'].
  destruct (parseAuthority authority) as [[user host]|]; [|done].
  cbn [mbind option_bind]. intros H. apply setPath_fields in H. simpl in H.
  destruct H as (-> & -> & ->). done.
Qed.

Lemma Parse_http (rest : gostring) (u : URL) :
  Parse ($"http://" ++ rest) = Some u ->
  Scheme u = $"http" /\ Opaque u = [] /\ OmitHost u = false.
Proof.
  unfold Parse.
  assert ((Cut ($"http://" ++ rest) $"#").1.1 = $"http://" ++ (Cut rest $"#").1.1) as H
    by (apply (Cut_app_byte $"http://"); repeat constructor; discriminate).
  destruct (Cut ($"http://" ++ rest) $"#") as [[before frag] found].
  cbn [fst] in H. rewrite H.
  destruct (parse _ false) as [url|] eqn:E; [|done].
  apply parse_http in E. cbn [mbind option_bind].
  destruct (is_empty frag).
  - by intros [= <-].
  - intros Hf. apply setFragment_fields in Hf.
    destruct Hf as (-> & -> & -> & _). done.
Qed.

Lemma URL_String_http (u : URL) :
  Scheme u = $"http" -> Opaque u = [] -> OmitHost u = false -> Path u <> [] ->
  HasPrefix (URL_String u) $"http://" = true.
Proof.
  destruct u as [scheme opaque user host path rawpath omit force query frag rawfrag].
  cbn [GoURL.Scheme GoURL.Opaque GoURL.OmitHost GoURL.Path].
  intros -> -> -> Hpath. unfold URL_String. cbv zeta.
  generalize (EscapedPath (mkURL $"http" [] user host path rawpath false force
                                 query frag rawfrag)).
  generalize (EscapedFragment (mkURL $"http" [] user host path rawpath false force
                                     query frag rawfrag)).
  intros f p.
  cbn [GoURL.Scheme GoURL.Opaque GoURL.OmitHost GoURL.Host GoURL.Path GoURL.User
       GoURL.ForceQuery GoURL.RawQuery GoURL.Fragment].
  destruct path as [|c path]; [done|].
  destruct host, user, p as [|x p]; cbn [is_empty negb andb orb app list_ascii_of_string].
  all: repeat match goal with
              | |- context [if ?b then _ else _] => destruct b
              end; reflexivity.
Qed.

Lemma normalizeUrl_http (rest t : gostring) :
  normalizeUrl ($"http://" ++ rest) = Some t -> HasPrefix t $"http://" = true.
Proof.
  unfold normalizeUrl. destruct (Parse _) as [u|] eqn:E; [|done].
  cbn [mbind option_bind]. intros [= <-].
  destruct (Parse_http _ _ E) as (Hs & Ho & Hh).
  destruct (is_empty (Path u)) eqn:Ep.
  - apply URL_String_http; try done.
  - apply URL_String_http; try done. by destruct (Path u).
Qed.

(** *** Plain urls *)





(** ** Normalizing twice *)




(** ** Replacement loops *)

Section ReplaceSteps.
Context {St : Type}.
Variable matcher : gostring -> option nat.
Variable repl : gostring -> St -> gostring * St.

Lemma replace_loop_skip (src : gostring) :
  forall (k : nat) (st : St), (k <= length src)%nat ->
    replace_loop matcher repl k src st = replace_loop matcher repl O (drop k src) st.
Proof.
  induction src as [|c src IH]; intros k st Hk.
  - by destruct k.
  - destruct k as [|k]; [done|]. simpl in *. apply IH. lia.
Qed.

Lemma replace_loop_match (s : gostring) (n : nat) (st : St) :
  matcher s = Some n -> (1 <= n <= length s)%nat ->
  replace_loop matcher repl O s st =
    let '(r, st1) := repl (take n s) st in
    let '(out, st2) := replace_loop matcher repl O (drop n s) st1 in
    (r ++ out, st2).
Proof.
  intros Hm Hn. destruct s as [|c s]; [simpl in Hn; lia|].
  cbn [replace_loop]. rewrite Hm.
  destruct (repl _ st) as [r st1].
  rewrite replace_loop_skip by (simpl in Hn; lia).
  replace (drop n (c :: s)) with (drop (n - 1) s); [done|].
  destruct n as [|n]; [lia|]. simpl. by rewrite Nat.sub_0_r.
Qed.

Lemma replace_loop_literal (c : ascii) (s : gostring) (st : St) :
  matcher (c :: s) = None ->
  replace_loop matcher repl O (c :: s) st =
    let '(out, st1) := replace_loop matcher repl O s st in (c :: out, st1).
Proof. intros Hm. cbn [replace_loop]. by rewrite Hm. Qed.

Lemma replace_loop_no_match (src : gostring) (st : St) :
  (forall j, matcher (drop j src) = None) ->
  replace_loop matcher repl O src st = (src, st).
Proof.
  induction src as [|c src IH]; intros H; simpl; [done|].
  pose proof (H O) as H0. simpl in H0. rewrite H0.
  rewrite IH; [done|]. intros j. apply (H (S j)).
Qed.
End ReplaceSteps.

Section ReplaceInvariant.
Context {St : Type}.
Variable matcher : gostring -> option nat.
Variable repl : gostring -> St -> gostring * St.
(** [Q] holds of every match, [P] is kept by the callback on matches. *)
Variable Q : gostring -> Prop.
Variable P : St -> Prop.
Hypothesis matcher_Q : forall s n, matcher s = Some n -> Q (take n s).
Hypothesis repl_keeps : forall u st, Q u -> P st -> P (repl u st).2.

Lemma replace_loop_inv (src : gostring) :
  forall (skip : nat) (st : St), P st -> P (replace_loop matcher repl skip src st).2.
Proof.
  induction src as [|c src IH]; intros skip st Hst; simpl; [done|].
  destruct skip as [|k]; [|by apply IH].
  destruct (matcher (c :: src)) as [n|] eqn:Em.
  - destruct (repl _ st) as [r st1] eqn:Er.
    assert (P st1) as H1.
    { pose proof (repl_keeps (take n (c :: src)) st (matcher_Q _ _ Em) Hst) as H.
      by rewrite Er in H. }
    specialize (IH (n - 1)%nat st1 H1).
    by destruct (replace_loop _ _ _ src st1).
  - specialize (IH O st Hst). by destruct (replace_loop _ _ _ src st).
Qed.
End ReplaceInvariant.

(** ** Header maps *)

Lemma copyHeaders_lookup (ignored : gset gostring) (src dst : Header)
  (k : gostring) :
  copyHeaders ignored src dst !! k =
    if decide (k ∈ ignored) then dst !! k
    else match src !! k with Some v => Some v | None => dst !! k end.
Proof.
  unfold copyHeaders. rewrite lookup_union.
  destruct (decide (k ∈ ignored)) as [Hin|Hin].
  - rewrite (proj2 (map_lookup_filter_None _ src k)); [by destruct (dst !! k)|].
    right. intros v _ Hk. by apply Hk.
  - destruct (src !! k) as [v|] eqn:E.
    + rewrite (proj2 (map_lookup_filter_Some _ src k v)); [by destruct (dst !! k)|done].
    + rewrite (proj2 (map_lookup_filter_None _ src k)); [by destruct (dst !! k)|by left].
Qed.

Lemma stripCookies_lookup (h : Header) (k : gostring) :
  stripCookies h !! k =
    if decide (k = $"Set-Cookie") then map desecure <$> h !! k else h !! k.
Proof.
  unfold stripCookies. destruct (decide (k = _)) as [->|Hk].
  - destruct (h !! _) as [cookies|] eqn:E; [by rewrite lookup_insert_eq|by rewrite E].
  - destruct (h !! _) as [cookies|] eqn:E; [by rewrite lookup_insert_ne|done].
Qed.

Lemma stripLocation_lookup (addr : gostring) (h h1 : Header) (m m1 : LinkMap)
  (k : gostring) :
  stripLocation addr h m = Some (h1, m1) ->
  k ≠ $"Location" -> h1 !! k = h !! k.
Proof.
  unfold stripLocation. destruct (HasPrefix _ _); [|by intros [= <- <-]].
  destruct (normalizeUrl _) as [s|]; [|done]. simpl. intros [= <- <-] Hk.
  unfold Header_Set. by rewrite lookup_insert_ne.
Qed.

Lemma stripLocation_cases (addr : gostring) (h h1 : Header) (m m1 : LinkMap) :
  stripLocation addr h m = Some (h1, m1) ->
  (HasPrefix (Header_Get h $"Location") $"https" = false /\ h1 = h /\ m1 = m)
  \/ (HasPrefix (Header_Get h $"Location") $"https" = true /\
      exists stripped,
        normalizeUrl ($"http" ++ drop 5 (Header_Get h $"Location")) = Some stripped /\
        h1 = Header_Set h $"Location" stripped /\
        m1 = setLink m (mkClientLink (normalizeIP addr) stripped)
                     (Header_Get h $"Location")).
Proof.
  unfold stripLocation. destruct (HasPrefix _ _).
  - destruct (normalizeUrl _) as [stripped|]; [|done]. simpl.
    intros [= <- <-]. right. split; [done|]. by exists stripped.
  - intros [= <- <-]. by left.
Qed.

(** ** The cookie step *)

Lemma LastIndex_cases (s p : gostring) :
  (LastIndex s p = -1 /\ last_index_of s p = None)
  \/ (exists idx : nat, LastIndex s p = Z.of_nat idx /\ last_index_of s p = Some idx).
Proof.
  unfold LastIndex. destruct (last_index_of s p) as [i|]; [right; by exists i|by left].
Qed.

Lemma desecure_spec (cookie : gostring) :
  (LastIndex cookie $"Secure" = -1 /\ Contains cookie $"Secure" = false
   /\ desecure cookie = cookie)
  \/ (exists idx : nat,
        LastIndex cookie $"Secure" = Z.of_nat idx /\
        cookie = take idx cookie ++ $"Secure" ++ drop (idx + 6) cookie /\
        desecure cookie = take idx cookie ++ drop (idx + 6) cookie /\
        (forall j, HasPrefix (drop j cookie) $"Secure" = true -> (j <= idx)%nat)).
Proof.
  unfold desecure.
  destruct (LastIndex_cases cookie $"Secure") as [[E En]|[idx [E Ei]]]; rewrite E.
  - left. split; [done|]. split; [|done].
    apply Contains_false. by apply last_index_of_None.
  - right. exists idx. destruct (last_index_of_Some _ _ _ Ei) as [H1 H2].
    split; [done|]. split; [|split].
    + rewrite <- (take_drop idx cookie) at 1. f_equal.
      rewrite (HasPrefix_inv _ _ H1) at 1. f_equal.
      rewrite drop_drop. f_equal.
    + replace (Z.of_nat idx =? -1) with false by (symmetry; apply Z.eqb_neq; lia).
      simpl. rewrite Nat2Z.id. do 2 f_equal. lia.
    + intros j Hj. destruct (decide (j <= length cookie)%nat); [by apply H2|].
      rewrite drop_ge in Hj by lia. done.
Qed.

(** ** The link map keeps its keys *)

Lemma setLink_keeps_bound (m : LinkMap) (cl key : clientLink) (link : gostring) :
  is_Some (m !! key) -> is_Some (setLink m cl link !! key).
Proof.
  intros H. unfold setLink. destruct (decide (cl = key)) as [->|Hne].
  - rewrite lookup_insert_eq. by eexists.
  - by rewrite lookup_insert_ne.
Qed.

Lemma stripBody_keeps_bound (addr body : gostring) (m : LinkMap) (key : clientLink) :
  is_Some (m !! key) -> is_Some ((stripBody addr body m).2 !! key).
Proof.
  apply (replace_loop_inv match_https (stripLink addr) (fun _ => True)
           (fun st => is_Some (st !! key))); [done|].
  intros u st _ Hst. unfold stripLink. destruct (normalizeUrl _); [|done].
  by apply setLink_keeps_bound.
Qed.

Lemma stripCss_keeps_bound (req : Request) (h : Header) (body : gostring)
  (m : LinkMap) (key : clientLink) :
  is_Some (m !! key) -> is_Some ((stripCss req h body m).2 !! key).
Proof.
  unfold stripCss. destruct (Contains _ _); [|done].
  apply (replace_loop_inv match_cssurl (stripCssUrl req) (fun _ => True)
           (fun st => is_Some (st !! key))); [done|].
  intros u st _ Hst. unfold stripCssUrl. destruct (cssLeft u); [done|].
  by apply setLink_keeps_bound.
Qed.

(** ** Transactions *)

Lemma stripResponse_Some (req : Request) (res : Response) (m : LinkMap)
  (body : gostring) (res2 : Response) (m' : LinkMap) :
  stripResponse req res m = (Some body, res2, m') ->
  exists h1 m1 b0 b1 m2,
    stripLocation (RemoteAddr req) (ResHeader res) m = Some (h1, m1) /\
    ResBody res = Some b0 /\
    res2 = withResHeader res (stripCookies h1) /\
    stripBody (RemoteAddr req) b0 m1 = (b1, m2) /\
    stripCss req (stripCookies h1) b1 m2 = (body, m').
Proof.
  unfold stripResponse.
  destruct (stripLocation _ _ _) as [[h1 m1]|] eqn:E0; [|done].
  destruct (ResBody res) as [b0|] eqn:Eb; [|done].
  destruct (stripBody _ _ _) as [b1 m2] eqn:E1.
  destruct (stripCss _ _ _ _) as [b2 m3] eqn:E2.
  intros [= <- <- <-]. by exists h1, m1, b0, b1, m2.
Qed.

Section ServerProperties.
Variable client_Do : Request -> option Response.
Variable ResolveReference : URL -> URL -> URL.
Variable gzip_NewReader : gostring -> bool.
Variable gunzip : gostring -> option gostring.
Variable gzip : gostring -> gostring.

Local Abbreviation serve :=
  (ServeHTTP client_Do ResolveReference gzip_NewReader gunzip gzip).
Local Abbreviation upstream := (makeRequest client_Do ResolveReference).

Lemma ServeHTTP_Some header0 req m w m' :
  serve header0 req m = (Some w, m') ->
  exists reqBody req' res res1 body res2,
    ReqBody req = Some reqBody /\
    makeRequest client_Do ResolveReference m (buildProxyReq req reqBody)
      = Some (req', res) /\
    decompress gzip_NewReader gunzip res = Some res1 /\
    stripResponse req' res1 m = (Some body, res2, m') /\
    w = mkWritten (copyHeaders ignoredResponseHeaders (ResHeader res2) header0)
                  (StatusCode res2) (recompress gzip res2 body).
Proof.
  unfold ServeHTTP.
  destruct (ReqBody req) as [reqBody|]; [|done].
  destruct (makeRequest _ _ _ _) as [[req' res]|] eqn:E1; [|done].
  destruct (decompress _ _ _) as [res1|] eqn:E2; [|done].
  destruct (stripResponse _ _ _) as [[[body|] res2] m2] eqn:E3; [|done].
  intros [= <- <-]. by exists reqBody, req', res, res1, body, res2.
Qed.

Lemma decompress_header res res1 :
  decompress gzip_NewReader gunzip res = Some res1 ->
  ResHeader res1 = ResHeader res /\ StatusCode res1 = StatusCode res.
Proof.
  unfold decompress. destruct (streq _ _); [|by intros [= <-]].
  destruct (ResBody res); [|done]. destruct (gzip_NewReader _); [|done].
  by intros [= <-].
Qed.
End ServerProperties.

Section Transactions.
Variable client_Do : Request -> option Response.
Variable ResolveReference : URL -> URL -> URL.
Variable gzip_NewReader : gostring -> bool.
Variable gunzip : gostring -> option gostring.
Variable gzip : gostring -> gostring.

Local Abbreviation serve :=
  (ServeHTTP client_Do ResolveReference gzip_NewReader gunzip gzip).
Local Abbreviation upstream := (makeRequest client_Do ResolveReference).

(** *** Restoring cached links *)


Lemma makeRequest_same_peer m req req' res :
  upstream m req = Some (req', res) -> RemoteAddr req' = RemoteAddr req.
Proof.
  unfold makeRequest, restoreLink.
  destruct (getLink m _) as [link|]; simpl.
  - destruct (URL_Parse _ _ _) as [u|]; simpl; [|done].
    destruct (client_Do _); simpl; [|done]. by intros [= <- _].
  - destruct (client_Do _); simpl; [|done]. by intros [= <- _].
Qed.

(** *** Headers *)

(** The header map written to the victim, key by key, in terms of the
    upstream header map. *)
Lemma emitted_header_lookup header0 req m w m' reqBody req' res (k : gostring) :
  ReqBody req = Some reqBody ->
  upstream m (buildProxyReq req reqBody) = Some (req', res) ->
  serve header0 req m = (Some w, m') ->
  exists h1 m1,
    stripLocation (RemoteAddr req') (ResHeader res) m = Some (h1, m1) /\
    w_status w = StatusCode res /\
    w_header w !! k =
      if decide (k ∈ ignoredResponseHeaders) then header0 !! k
      else match stripCookies h1 !! k with
           | Some v => Some v
           | None => header0 !! k
           end.
Proof.
  intros Hb Hup Hs. apply ServeHTTP_Some in Hs.
  destruct Hs as (reqBody0 & req0 & res0 & res1 & body & res2 & Hb0 & Hup0 & Hd & Hr & ->).
  rewrite Hb in Hb0. injection Hb0 as <-.
  rewrite Hup in Hup0. injection Hup0 as <- <-.
  destruct (decompress_header _ _ _ _ Hd) as [Hh Hc].
  destruct (stripResponse_Some _ _ _ _ _ _ Hr) as (h1 & m1 & b0 & b1 & m2 & Hl & _ & -> & _ & _).
  exists h1, m1. rewrite Hh in Hl. split; [done|]. split; [done|].
  simpl. by rewrite copyHeaders_lookup.
Qed.

(** C7 (amended): the header map written to the victim is the header map
    of the response after the Location and cookie steps, minus the four
    ignored keys, and the status code is the upstream one.  So every other
    header keeps its upstream values, [Set-Cookie] keeps one slot per
    upstream value with the cookie step applied, and a downgraded
    [Location] is a single value. *)
Theorem emitted_headers_projected req m w m' reqBody req' res :
  ReqBody req = Some reqBody ->
  upstream m (buildProxyReq req reqBody) = Some (req', res) ->
  serve ∅ req m = (Some w, m') ->
  w_status w = StatusCode res /\
  (forall k, k ∈ ignoredResponseHeaders -> w_header w !! k = None) /\
  (forall k, k ∉ ignoredResponseHeaders -> k ≠ $"Location" -> k ≠ $"Set-Cookie" ->
     w_header w !! k = ResHeader res !! k) /\
  w_header w !! $"Set-Cookie" = map desecure <$> ResHeader res !! $"Set-Cookie" /\
  (let location := Header_Get (ResHeader res) $"Location" in
   if HasPrefix location $"https"
   then exists stripped,
          normalizeUrl ($"http" ++ drop 5 location) = Some stripped /\
          w_header w !! $"Location" = Some [stripped]
   else w_header w !! $"Location" = ResHeader res !! $"Location").
Proof.
  intros Hb Hup Hs.
  assert (forall k, exists h1 m1,
    stripLocation (RemoteAddr req') (ResHeader res) m = Some (h1, m1) /\
    w_status w = StatusCode res /\
    w_header w !! k =
      if decide (k ∈ ignoredResponseHeaders) then None else stripCookies h1 !! k)
    as Hk.
  { intros k.
    destruct (emitted_header_lookup _ _ _ _ _ _ _ _ k Hb Hup Hs) as (h1 & m1 & Hl & Hc & Hw).
    exists h1, m1. split; [done|]. split; [done|]. rewrite Hw, lookup_empty.
    destruct (decide _); [done|]. by destruct (stripCookies h1 !! k). }
  split; [|split; [|split; [|split]]].
  - by destruct (Hk []) as (? & ? & _ & ? & _).
  - intros k Hin. destruct (Hk k) as (h1 & m1 & _ & _ & ->). by rewrite decide_True.
  - intros k Hin Hl Hc. destruct (Hk k) as (h1 & m1 & Hloc & _ & ->).
    rewrite decide_False by done. rewrite stripCookies_lookup, decide_False by done.
    by apply (stripLocation_lookup _ _ _ _ _ _ Hloc).
  - destruct (Hk $"Set-Cookie") as (h1 & m1 & Hloc & _ & ->).
    rewrite decide_False by not_ignored.
    rewrite stripCookies_lookup, decide_True by done.
    rewrite (stripLocation_lookup _ _ _ _ _ _ Hloc); [done|key_neq].
  - destruct (Hk $"Location") as (h1 & m1 & Hloc & _ & Hw).
    rewrite decide_False in Hw by not_ignored.
    rewrite stripCookies_lookup, decide_False in Hw by key_neq.
    cbv zeta. destruct (stripLocation_cases _ _ _ _ _ Hloc)
      as [(-> & -> & _)|(-> & stripped & Hn & -> & _)].
    + done.
    + exists stripped. split; [done|]. rewrite Hw. unfold Header_Set.
      by rewrite lookup_insert_eq.
Qed.


(** *** Cookies *)

(** C5 (amended): every [Set-Cookie] value the upstream sent is emitted with
    the cookie step applied, one slot per value; the step leaves a value
    without [Secure] unchanged and otherwise splices out exactly the six
    bytes of its last occurrence of [Secure].  Earlier occurrences, and
    one formed by joining the two ends, stay in the emitted value. *)
Theorem emitted_cookies_spliced header0 req m w m' reqBody req' res cookies :
  ReqBody req = Some reqBody ->
  upstream m (buildProxyReq req reqBody) = Some (req', res) ->
  serve header0 req m = (Some w, m') ->
  ResHeader res !! $"Set-Cookie" = Some cookies ->
  w_header w !! $"Set-Cookie" = Some (map desecure cookies) /\
  forall cookie : gostring,
    (LastIndex cookie $"Secure" = -1 /\ Contains cookie $"Secure" = false
     /\ desecure cookie = cookie)
    \/ (exists idx : nat,
          LastIndex cookie $"Secure" = Z.of_nat idx /\
          cookie = take idx cookie ++ $"Secure" ++ drop (idx + 6) cookie /\
          desecure cookie = take idx cookie ++ drop (idx + 6) cookie /\
          (forall j, HasPrefix (drop j cookie) $"Secure" = true -> (j <= idx)%nat)).
Proof.
  intros Hb Hup Hs Hc. split; [|apply desecure_spec].
  destruct (emitted_header_lookup _ _ _ _ _ _ _ _ $"Set-Cookie" Hb Hup Hs)
    as (h1 & m1 & Hl & _ & ->).
  rewrite decide_False by not_ignored.
  rewrite stripCookies_lookup, decide_True by done.
  rewrite (stripLocation_lookup _ _ _ _ _ _ Hl) by key_neq.
  by rewrite Hc.
Qed.
End Transactions.

(** C10: the error of [normalizeUrl] that [makeRequest] drops does occur.
    The request line [GET //:x HTTP/1.1] gives the handler the url
    [ParseRequestURI("//:x")], whose path is [//:x]; it prints as [//:x],
    which [Parse] reads as an authority with an invalid port, so the lookup
    key is built from the empty string. *)
Theorem dropped_normalizeUrl_error_occurs :
  exists u,
    ParseRequestURI $"//:x" = Some u /\
    Path u = $"//:x" /\
    URL_String u = $"//:x" /\
    normalizeUrl (URL_String u) = None /\
    requestKey (mkRequest $"GET" u ∅ $"a.test" false (Some []) $"10.0.0.7:5123")
      = mkClientLink $"10.0.0.7" [].
Proof. eexists. split; [reflexivity|]. repeat split; reflexivity. Qed.

Lemma emitted_headers_projected_witness :
  w_status (written (serve_fixed cookie_response (victim_get $"shop.test" $"/") ∅)) = 200.
Proof.
  pose (req := victim_get $"shop.test" $"/").
  destruct (emitted_headers_projected
              (fixed_upstream cookie_response) resolve_absolute framed unframe frame
              req ∅ (written (serve_fixed cookie_response req ∅)) (serve_fixed cookie_response req ∅).2
              [] (buildProxyReq req []) cookie_response) as [H _].
  - reflexivity.
  - reflexivity.
  - run_succeeds.
  - exact H.
Defined.

(** The written header map is not the upstream one minus the ignored keys:
    the [Set-Cookie] value differs. *)
Lemma emitted_headers_not_upstream_minus_ignored :
  let r := serve_fixed cookie_response (victim_get $"shop.test" $"/") ∅ in
  r.1 ≠ None /\
  w_header (written r)
    ≠ filter (fun kv => kv.1 ∉ ignoredResponseHeaders) (ResHeader cookie_response).
Proof.
  split.
  - vm_compute. discriminate.
  - intros H. apply (f_equal (fun h : Header => h !! $"Set-Cookie")) in H.
    vm_compute in H. discriminate H.
Qed.



Lemma emitted_cookies_spliced_witness :
  w_header (written (serve_fixed cookie_response (victim_get $"shop.test" $"/") ∅))
    !! $"Set-Cookie" = Some [ $"sid=abc; Path=/; ; HttpOnly" ].
Proof.
  pose (req := victim_get $"shop.test" $"/").
  destruct (emitted_cookies_spliced
              (fixed_upstream cookie_response) resolve_absolute framed unframe frame
              ∅ req ∅ (written (serve_fixed cookie_response req ∅)) (serve_fixed cookie_response req ∅).2
              [] (buildProxyReq req []) cookie_response
              [ $"sid=abc; Path=/; Secure; HttpOnly" ]) as [H _].
  - reflexivity.
  - reflexivity.
  - run_succeeds.
  - reflexivity.
  - exact H.
Defined.

(** The cookie step can leave [Secure] in an emitted value. *)
Lemma Secure_survives_desecure :
  exists v,
    w_header (written (serve_fixed two_Secure_response (victim_get $"shop.test" $"/") ∅))
      !! $"Set-Cookie" = Some [v]
    /\ Contains v $"Secure" = true.
Proof. exists $"sid=1; Secure; ". split; vm_compute; reflexivity. Qed.

(** ** The body pass *)

Lemma run_split (cls : ascii -> bool) (s : gostring) :
  s = run cls s ++ drop (length (run cls s)) s /\
  match drop (length (run cls s)) s with
  | [] => True
  | c :: _ => cls c = false
  end.
Proof.
  induction s as [|c s [IH1 IH2]]; simpl; [done|].
  destruct (cls c) eqn:E; simpl; [|done]. split; [by f_equal|done].
Qed.

Lemma match_https_Some (s : gostring) (n : nat) :
  match_https s = Some n ->
  HasPrefix s $"https://" = true /\ (8 <= n <= length s)%nat /\
  match drop n s with
  | [] => True
  | c :: _ => url_class c = false
  end.
Proof.
  unfold match_https. destruct (HasPrefix s $"https://") eqn:E; [|done].
  intros [= <-]. split; [done|].
  destruct (run_split url_class (drop 8 s)) as [H1 H2].
  assert (length (drop 8 s) = length s - 8)%nat as Hl by apply length_drop.
  assert (8 <= length s)%nat as H8.
  { apply HasPrefix_inv in E. rewrite E, length_app. simpl. lia. }
  assert (length (run url_class (drop 8 s)) <= length (drop 8 s))%nat as Hr.
  { rewrite H1 at 2. rewrite length_app. lia. }
  split; [lia|]. rewrite drop_drop in H2. exact H2.
Qed.


Lemma match_https_prefix (s : gostring) (n : nat) :
  match_https s = Some n -> HasPrefix (take n s) $"https://" = true.
Proof.
  unfold match_https. destruct (HasPrefix s $"https://") eqn:E; [|done].
  intros [= <-]. apply HasPrefix_take_ge; [done|]. simpl. lia.
Qed.





Lemma stripBody_no_https (addr body : gostring) (m : LinkMap) :
  Contains body $"https://" = false -> stripBody addr body m = (body, m).
Proof.
  intros H. apply replace_loop_no_match. intros j. unfold match_https.
  by rewrite (proj1 (Contains_false _ _) H j).
Qed.

Lemma matches_shift (src : gostring) :
  forall (k : nat) (acc : list gostring),
    (replace_loop match_https (fun u acc => (u, acc ++ [u])) k src acc).2 =
    acc ++ (replace_loop match_https (fun u acc => (u, acc ++ [u])) k src []).2.
Proof.
  induction src as [|c src IH]; intros k acc; cbn [replace_loop].
  - by rewrite app_nil_r.
  - destruct k as [|k]; [|apply IH].
    destruct (match_https (c :: src)) as [n|].
    + pose proof (IH (n - 1)%nat (acc ++ [take n (c :: src)])) as H1.
      pose proof (IH (n - 1)%nat ([] ++ [take n (c :: src)])) as H2.
      destruct (replace_loop _ _ _ src (acc ++ _)) as [o1 l1].
      destruct (replace_loop _ _ _ src ([] ++ _)) as [o2 l2].
      destruct (replace_loop _ _ _ src []) as [o3 l3].
      cbn [snd] in *. rewrite H1, H2. by rewrite <- !app_assoc.
    + pose proof (IH O acc) as H1.
      destruct (replace_loop _ _ _ src acc) as [o1 l1].
      by destruct (replace_loop _ _ _ src []) as [o3 l3].
Qed.

Lemma httpsMatches_match (s : gostring) (n : nat) :
  match_https s = Some n ->
  httpsMatches s = take n s :: httpsMatches (drop n s).
Proof.
  intros Hm. destruct (match_https_Some _ _ Hm) as (_ & Hn & _).
  unfold httpsMatches, ReplaceAllFunc.
  rewrite (replace_loop_match _ _ _ _ _ Hm) by lia.
  pose proof (matches_shift (drop n s) O ([] ++ [take n s])) as H.
  destruct (replace_loop _ _ _ (drop n s) ([] ++ [take n s])) as [o1 l1].
  simpl in *. by rewrite H.
Qed.

Lemma httpsMatches_literal (c : ascii) (s : gostring) :
  match_https (c :: s) = None -> httpsMatches (c :: s) = httpsMatches s.
Proof.
  intros Hm. unfold httpsMatches, ReplaceAllFunc.
  rewrite (replace_loop_literal _ _ _ _ _ Hm).
  by destruct (replace_loop _ _ _ s []).
Qed.







(** ** The CSS pass *)

Lemma match_cssurl_prefix (s : gostring) (n : nat) :
  match_cssurl s = Some n -> HasPrefix (take n s) $"url(" = true.
Proof.
  unfold match_cssurl. destruct (HasPrefix s $"url(") eqn:E; [|done].
  destruct (HasPrefix _ $")"); [|done].
  intros [= <-]. apply HasPrefix_take_ge; [done|]. simpl. lia.
Qed.

Lemma stripCss_no_url (req : Request) (h : Header) (body : gostring) (m : LinkMap) :
  Contains body $"url(" = false -> stripCss req h body m = (body, m).
Proof.
  intros H. unfold stripCss. destruct (Contains (Header_Get _ _) _); [|done].
  apply replace_loop_no_match. intros j. unfold match_cssurl.
  by rewrite (proj1 (Contains_false _ _) H j).
Qed.

Lemma css_class_no_quote (c : ascii) : css_class c = true -> is_quote c = false.
Proof. by_bytes c. Qed.

Lemma slice_unquoted (ref : gostring) :
  slice ($"url(" ++ ref ++ $")") 4 (length ($"url(" ++ ref ++ $")") - 1) = ref.
Proof.
  unfold slice. rewrite !length_app. simpl length.
  replace (4 + (length ref + 1) - 1 - 4)%nat with (length ref) by lia.
  change (drop 4 ($"url(" ++ ref ++ $")")) with (ref ++ $")").
  by rewrite take_app_length.
Qed.

Lemma HasPrefix_http_paren (ref : gostring) :
  HasPrefix (ref ++ $")") $"http" = HasPrefix ref $"http".
Proof.
  do 4 (destruct ref as [|? ref]; [by vm_compute|];
        cbn [app HasPrefix list_ascii_of_string];
        match goal with |- context [Ascii.eqb ?a ?b] => destruct (Ascii.eqb a b) end;
        [|done]).
  reflexivity.
Qed.

(** What the claim C9 describes holds for references without quotes: the
    callback resolves the reference against scheme, host and path of the
    request, downgrades an https result, stores the pair and emits the
    downgraded url between single quotes. *)
Lemma stripCssUrl_unquoted (req : Request) (ref : gostring) (m : LinkMap) :
  Forall (fun c => css_class c = true) ref ->
  HasPrefix ref $"http" = false ->
  Contains ($"url(" ++ ref ++ $")") $"base64" = false ->
  let absoluteUrl :=
    Scheme (ReqURL req) ++ $"://" ++ ReqHost req
    ++ (if HasPrefix ref $"/" then ref else Path (ReqURL req) ++ $"/" ++ ref) in
  let strippedUrl :=
    if streq (Scheme (ReqURL req)) $"https" then $"http" ++ drop 5 absoluteUrl
    else absoluteUrl in
  stripCssUrl req ($"url(" ++ ref ++ $")") m
  = ($"url('" ++ strippedUrl ++ $"')",
     setLink m (mkClientLink (normalizeIP (RemoteAddr req)) strippedUrl) absoluteUrl).
Proof.
  intros Hcls Hhttp Hb64. cbv zeta.
  assert (cssAbsoluteUrl req ($"url(" ++ ref ++ $")")
          = Scheme (ReqURL req) ++ $"://" ++ ReqHost req
            ++ (if HasPrefix ref $"/" then ref else Path (ReqURL req) ++ $"/" ++ ref))
    as Habs.
  { unfold cssAbsoluteUrl. rewrite slice_unquoted.
    destruct ref as [|c ref]; [reflexivity|].
    inversion Hcls as [|? ? Hc _]; subst. apply css_class_no_quote in Hc.
    unfold is_quote in Hc. apply orb_false_iff in Hc as [Hq1 Hq2].
    cbn [app HasPrefix list_ascii_of_string]. simpl Ascii.eqb at 1 2 3 4.
    cbn [app HasPrefix list_ascii_of_string Ascii.eqb Bool.eqb andb orb].
    rewrite Hq1, Hq2. cbn [orb].
    by destruct (Ascii.eqb c "/"). }
  unfold stripCssUrl, cssLeft.
  replace (HasPrefix ($"url(" ++ ref ++ $")") $"url(http") with false
    by (symmetry; rewrite <- (HasPrefix_http_paren ref) in Hhttp; exact Hhttp).
  replace (HasPrefix ($"url(" ++ ref ++ $")") $"url('http") with false; cycle 1.
  { destruct ref as [|c ref]; [reflexivity|].
    inversion Hcls as [|? ? Hc _]; subst. apply css_class_no_quote in Hc.
    unfold is_quote in Hc. apply orb_false_iff in Hc as [Hq1 Hq2]. simpl.
    by rewrite Hq1. }
  replace (HasPrefix ($"url(" ++ ref ++ $")") ($"url(" ++ [dquote] ++ $"http"))
    with false; cycle 1.
  { destruct ref as [|c ref]; [reflexivity|].
    inversion Hcls as [|? ? Hc _]; subst. apply css_class_no_quote in Hc.
    unfold is_quote in Hc. apply orb_false_iff in Hc as [Hq1 Hq2]. simpl.
    change (ascii_of_N 34) with dquote. by rewrite Hq2. }
  rewrite Hb64. cbn [orb]. rewrite Habs. reflexivity.
Qed.

(** Scenario 5 of the specification: an unquoted root-relative reference. *)
Example unquoted_css_reference_resolved :
  let r := stripCss (https_get $"site.test" $"/style.css") css_header
                    $"body{background:url(/img/bg.png)}" ∅ in
  r.1 = $"body{background:url('http://site.test/img/bg.png')}" /\
  r.2 !! mkClientLink $"10.0.0.7" $"http://site.test/img/bg.png"
    = Some $"https://site.test/img/bg.png".
Proof. split; vm_compute; reflexivity. Qed.

(** C9: for a quoted reference the callback cuts the match at [5] and
    [len-1], which removes [url(], the opening quote and the closing
    parenthesis but keeps the closing quote: the reference is resolved with
    a quote at its end, and both the emitted text and the link map entry
    carry it. *)
Theorem quoted_css_reference_keeps_quote :
  let r := stripCss (https_get $"site.test" $"/style.css") css_header
                    $"body{background:url('/img/bg.png')}" ∅ in
  r.1 = $"body{background:url('http://site.test/img/bg.png'')}" /\
  r.2 !! mkClientLink $"10.0.0.7" $"http://site.test/img/bg.png'"
    = Some $"https://site.test/img/bg.png'" /\
  r.2 !! mkClientLink $"10.0.0.7" $"http://site.test/img/bg.png" = None.
Proof. repeat split; vm_compute; reflexivity. Qed.

(** ** The entries of the link map *)



Lemma cssAbsoluteUrl_shape (req : Request) (u : gostring) :
  HasPrefix u $"url(" = true ->
  exists x, cssAbsoluteUrl req u = Scheme (ReqURL req) ++ $"://" ++ x.
Proof.
  intros Hu. unfold cssAbsoluteUrl. rewrite Hu.
  repeat match goal with
         | |- context [if ?b then _ else _] => destruct b
         end; eexists; reflexivity.
Qed.




Section LinkMapEntries.
Variable client_Do : Request -> option Response.
Variable ResolveReference : URL -> URL -> URL.
Variable gzip_NewReader : gostring -> bool.
Variable gunzip : gostring -> option gostring.
Variable gzip : gostring -> gostring.

Local Abbreviation serve :=
  (ServeHTTP client_Do ResolveReference gzip_NewReader gunzip gzip).
Local Abbreviation upstream := (makeRequest client_Do ResolveReference).

End LinkMapEntries.



(** ** Compressed bodies *)

Section GzipRoundTrip.
Variable client_Do : Request -> option Response.
Variable ResolveReference : URL -> URL -> URL.
Variable gzip_NewReader : gostring -> bool.
Variable gunzip : gostring -> option gostring.
Variable gzip : gostring -> gostring.
(** What the gzip writer produces, the gzip reader reads back. *)
Hypothesis gunzip_gzip : forall b, gunzip (gzip b) = Some b.

Local Abbreviation serve :=
  (ServeHTTP client_Do ResolveReference gzip_NewReader gunzip gzip).
Local Abbreviation upstream := (makeRequest client_Do ResolveReference).

(** C8: when the upstream response is gzip-encoded, its body decodes to
    [plain], and response rewriting returns [plain] unchanged, then the
    body written to the victim decodes to [plain]. *)
Theorem gzip_round_trip header0 req m w m' reqBody req' res raw plain :
  ReqBody req = Some reqBody ->
  upstream m (buildProxyReq req reqBody) = Some (req', res) ->
  serve header0 req m = (Some w, m') ->
  Header_Get (ResHeader res) $"Content-Encoding" = $"gzip" ->
  ResBody res = Some raw ->
  gunzip raw = Some plain ->
  (stripResponse req' (withResBody res (Some plain)) m).1.1 = Some plain ->
  gunzip (w_body w) = Some plain.
Proof.
  intros Hb Hup Hs Hce Hraw Hplain Hsame. apply ServeHTTP_Some in Hs.
  destruct Hs as (reqBody0 & req0 & res0 & res1 & body & res2 & Hb0 & Hup0 & Hd & Hr & ->).
  rewrite Hb in Hb0. injection Hb0 as <-.
  rewrite Hup in Hup0. injection Hup0 as <- <-.
  unfold decompress in Hd. rewrite Hce, streq_refl, Hraw, Hplain in Hd.
  destruct (gzip_NewReader raw); [|done]. injection Hd as <-.
  rewrite Hr in Hsame. injection Hsame as ->.
  destruct (stripResponse_Some _ _ _ _ _ _ Hr)
    as (h1 & m1 & b0 & b1 & m2 & Hl & _ & -> & _ & _).
  cbn [w_body]. unfold recompress, Header_Get. cbn [ResHeader withResHeader].
  rewrite stripCookies_lookup, decide_False by key_neq.
  rewrite (stripLocation_lookup _ _ _ _ _ _ Hl) by key_neq.
  cbn [ResHeader withResBody]. unfold Header_Get in Hce. rewrite Hce.
  by rewrite streq_refl.
Qed.
End GzipRoundTrip.

Lemma gzip_round_trip_witness :
  unframe (w_body (written (serve_fixed gzip_response (victim_get $"shop.test" $"/") ∅)))
    = Some $"<p>plain page</p>".
Proof.
  pose (req := victim_get $"shop.test" $"/").
  apply (gzip_round_trip
           (fixed_upstream gzip_response) resolve_absolute framed unframe frame
           (fun b => eq_refl)
           ∅ req ∅ (written (serve_fixed gzip_response req ∅)) (serve_fixed gzip_response req ∅).2
           [] (buildProxyReq req []) gzip_response (frame $"<p>plain page</p>")).
  - reflexivity.
  - reflexivity.
  - run_succeeds.
  - reflexivity.
  - reflexivity.
  - reflexivity.
  - vm_compute. reflexivity.
Defined.

(** ** The scenarios of the specification *)

(** Scenario 1: a redirect to https is downgraded and remembered, and the
    follow-up request of the same client is sent to the https url. *)
Example scenario_redirect_then_follow_up :
  let r := serve_fixed redirect_response (victim_get $"bank.example" $"/") ∅ in
  w_status (written r) = 302 /\
  w_header (written r) !! $"Location" = Some [ $"http://bank.example/login" ] /\
  r.2 !! mkClientLink $"10.0.0.7" $"http://bank.example/login"
    = Some $"https://bank.example/login" /\
  ReqURL <$> restoreLink resolve_absolute r.2 (victim_get $"bank.example" $"/login")
    = Parse $"https://bank.example/login".
Proof. repeat split; vm_compute; reflexivity. Qed.

(** Scenario 2: a link in a page. *)
Example scenario_page :
  let r := serve_fixed page_response (victim_get $"x.test" $"/") ∅ in
  w_body (written r) = $"<a href=http://x.test/a>" /\
  r.2 !! mkClientLink $"10.0.0.7" $"http://x.test/a" = Some $"https://x.test/a".
Proof. split; vm_compute; reflexivity. Qed.

(** Scenario 3: the same page compressed; the encoding header stays, the
    length header goes. *)
Example scenario_gzip_page :
  let r := serve_fixed gzip_page_response (victim_get $"x.test" $"/") ∅ in
  unframe (w_body (written r)) = Some $"<a href=http://x.test/a>" /\
  w_header (written r) !! $"Content-Encoding" = Some [ $"gzip" ] /\
  w_header (written r) !! $"Content-Length" = None.
Proof. repeat split; vm_compute; reflexivity. Qed.

(** Scenario 6: a data url in a stylesheet is left as it is. *)
Example scenario_data_url :
  stripCss (https_get $"site.test" $"/style.css") css_header
           $"a{background:url(data:image/png;base64,AAAA)}" ∅
  = ($"a{background:url(data:image/png;base64,AAAA)}", ∅).
Proof. vm_compute. reflexivity. Qed.

(** * Further properties *)

(** ** The client identifier *)

Lemma index_of_byte_split (s : gostring) (c : ascii) :
  match index_of s [c] with
  | Some i => Forall (fun x => x <> c) (take i s) /\ s = take i s ++ c :: drop (S i) s
  | None => Forall (fun x => x <> c) s
  end.
Proof.
  induction s as [|x s IH]; [by constructor|].
  cbn [index_of HasPrefix]. destruct (Ascii.eqb_spec x c) as [->|Hx].
  - split; [constructor|reflexivity].
  - destruct (index_of s [c]) as [i|]; simpl.
    + destruct IH as [IH1 IH2]. split; [by constructor|]. by f_equal.
    + by constructor.
Qed.

(** X1: [normalizeIP] returns the part of the peer string before its first
    colon: the result holds no colon, and the peer string is the result
    itself or the result followed by a colon and the rest. *)
Theorem normalizeIP_before_first_colon (remoteAddr : gostring) :
  Forall (fun x => x <> ":"%char) (normalizeIP remoteAddr) /\
  (remoteAddr = normalizeIP remoteAddr
   \/ exists rest, remoteAddr = normalizeIP remoteAddr ++ ":"%char :: rest).
Proof.
  unfold normalizeIP, SplitFirst. change $":" with [":"%char].
  pose proof (index_of_byte_split remoteAddr ":") as H.
  destruct (index_of remoteAddr [":"%char]) as [i|].
  - destruct H as [H1 H2]. split; [done|]. right. by eexists.
  - split; [done|by left].
Qed.

(** X2: the port does not matter: two peer strings with the same colon-free
    host give the same client identifier, the host. *)
Theorem normalizeIP_drops_port (host port1 port2 : gostring) :
  Forall (fun x => x <> ":"%char) host ->
  normalizeIP (host ++ $":" ++ port1) = host /\
  normalizeIP (host ++ $":" ++ port1) = normalizeIP (host ++ $":" ++ port2).
Proof.
  intros Hh. unfold normalizeIP, SplitFirst. change $":" with [":"%char].
  change (host ++ [":"%char] ++ port1) with (host ++ ":"%char :: port1).
  change (host ++ [":"%char] ++ port2) with (host ++ ":"%char :: port2).
  rewrite !index_of_first by done. by rewrite !take_app_length.
Qed.

Lemma normalizeIP_drops_port_witness :
  normalizeIP ($"10.0.0.7" ++ $":" ++ $"5123") = $"10.0.0.7" /\
  normalizeIP ($"10.0.0.7" ++ $":" ++ $"5123")
    = normalizeIP ($"10.0.0.7" ++ $":" ++ $"80").
Proof.
  apply normalizeIP_drops_port. repeat constructor; discriminate.
Defined.

(** ** The link map as a store *)

(** X3: [getLink] after [setLink] returns the link stored last under the
    key, and a key that was not written keeps what it had. *)
Theorem getLink_after_setLink (storedLinks : LinkMap) (cl other : clientLink)
  (first second : gostring) :
  getLink (setLink (setLink storedLinks cl first) cl second) cl = Some second /\
  (other <> cl ->
   getLink (setLink storedLinks cl first) other = getLink storedLinks other).
Proof.
  unfold getLink, setLink. split.
  - by rewrite lookup_insert_eq.
  - intros Hne. by rewrite lookup_insert_ne.
Qed.

(** ** What [normalizeUrl] returns *)

Lemma escape_nonempty (s : gostring) (mode : encoding) :
  s <> [] -> escape s mode <> [].
Proof.
  destruct s as [|c s]; [done|]. intros _. cbn [escape].
  destruct (shouldEscape c mode); [|done]. by destruct mode, (Ascii.eqb c " ").
Qed.

Lemma EscapedPath_nonempty (u : URL) : Path u <> [] -> EscapedPath u <> [].
Proof.
  intros Hp. unfold EscapedPath.
  destruct (is_empty (RawPath u)) eqn:Er; cbn [negb andb].
  - destruct (streq (Path u) $"*"); [done|]. by apply escape_nonempty.
  - destruct (_ && _).
    + by destruct (RawPath u).
    + destruct (streq (Path u) $"*"); [done|]. by apply escape_nonempty.
Qed.

Lemma URL_String_nonempty (u : URL) : Path u <> [] -> URL_String u <> [].
Proof.
  intros Hp. pose proof (EscapedPath_nonempty u Hp) as He. unfold URL_String.
  cbv zeta. revert He. generalize (EscapedPath u) (EscapedFragment u).
  intros p f He. destruct p as [|x p]; [done|].
  destruct (Opaque u) as [|o op]; cbn [is_empty negb];
    repeat match goal with
           | |- context [if ?b then _ else _] => destruct b
           end;
    intros H; apply (f_equal length) in H; rewrite ?length_app in H;
    cbn [length] in H; lia.
Qed.

Lemma normalizeUrl_Some_nonempty (link normalized : gostring) :
  normalizeUrl link = Some normalized -> normalized <> [].
Proof.
  unfold normalizeUrl. destruct (Parse link) as [u|]; [|done].
  cbn [mbind option_bind]. intros [= <-].
  apply URL_String_nonempty. destruct (is_empty (Path u)) eqn:E; [done|].
  by destruct (Path u).
Qed.

(** X4: when [normalizeUrl] succeeds its result is never the empty string,
    the string it returns beside an error. *)
Theorem normalizeUrl_never_empty (link normalized : gostring) :
  normalizeUrl link = Some normalized -> normalized <> [].
Proof. apply normalizeUrl_Some_nonempty. Qed.

Lemma normalizeUrl_never_empty_witness :
  $"http://bank.example/" <> [].
Proof.
  apply (normalizeUrl_never_empty $"http://bank.example"). reflexivity.
Defined.

(** ** What a transaction does to the link map *)

Lemma stripResponse_keeps_bound (req : Request) (res : Response) (m : LinkMap)
  (key : clientLink) :
  is_Some (m !! key) -> is_Some ((stripResponse req res m).2 !! key).
Proof.
  intros Hm. unfold stripResponse.
  destruct (stripLocation _ _ _) as [[h1 m1]|] eqn:El; [|done].
  assert (is_Some (m1 !! key)) as Hm1.
  { destruct (stripLocation_cases _ _ _ _ _ El)
      as [(_ & _ & ->)|(_ & stripped & _ & _ & ->)]; [done|].
    by apply setLink_keeps_bound. }
  destruct (ResBody res) as [body|]; [|done].
  pose proof (stripBody_keeps_bound (RemoteAddr req) body m1 key Hm1) as Hm2.
  destruct (stripBody _ body m1) as [body1 m2].
  pose proof (stripCss_keeps_bound req (stripCookies h1) body1 m2 key Hm2) as Hm3.
  by destruct (stripCss req _ body1 m2) as [body2 m3].
Qed.

Lemma stripLink_other_client (addr u : gostring) (m : LinkMap) (cl : clientLink) :
  clientIP cl <> normalizeIP addr -> (stripLink addr u m).2 !! cl = m !! cl.
Proof.
  intros Hcl. unfold stripLink. destruct (normalizeUrl _) as [t|]; [|done].
  unfold setLink. cbn [snd]. rewrite lookup_insert_ne; [done|].
  intros <-. by apply Hcl.
Qed.

Lemma stripCssUrl_other_client (req : Request) (u : gostring) (m : LinkMap)
  (cl : clientLink) :
  clientIP cl <> normalizeIP (RemoteAddr req) ->
  (stripCssUrl req u m).2 !! cl = m !! cl.
Proof.
  intros Hcl. unfold stripCssUrl. destruct (cssLeft u); [done|].
  unfold setLink. cbn [snd]. rewrite lookup_insert_ne; [done|].
  intros <-. by apply Hcl.
Qed.

Lemma stripResponse_other_client (req : Request) (res : Response) (m : LinkMap)
  (cl : clientLink) :
  clientIP cl <> normalizeIP (RemoteAddr req) ->
  (stripResponse req res m).2 !! cl = m !! cl.
Proof.
  intros Hcl. unfold stripResponse.
  destruct (stripLocation _ _ _) as [[h1 m1]|] eqn:El; [|done].
  assert (m1 !! cl = m !! cl) as Hm1.
  { destruct (stripLocation_cases _ _ _ _ _ El)
      as [(_ & _ & ->)|(_ & stripped & _ & _ & ->)]; [done|].
    unfold setLink. rewrite lookup_insert_ne; [done|]. intros <-. by apply Hcl. }
  destruct (ResBody res) as [body|]; [|done].
  assert ((stripBody (RemoteAddr req) body m1).2 !! cl = m !! cl) as Hm2.
  { apply (replace_loop_inv match_https (stripLink (RemoteAddr req)) (fun _ => True)
             (fun st => st !! cl = m !! cl)); [done| |done].
    intros u st _ Hst. by rewrite stripLink_other_client. }
  destruct (stripBody _ body m1) as [body1 m2].
  assert ((stripCss req (stripCookies h1) body1 m2).2 !! cl = m !! cl) as Hm3.
  { unfold stripCss. destruct (Contains _ _); [|done].
    apply (replace_loop_inv match_cssurl (stripCssUrl req) (fun _ => True)
             (fun st => st !! cl = m !! cl)); [done| |done].
    intros u st _ Hst. by rewrite stripCssUrl_other_client. }
  by destruct (stripCss req _ body1 m2) as [body2 m3].
Qed.

Lemma cssStrippedUrl_nonempty (req : Request) (u : gostring) :
  HasPrefix u $"url(" = true -> cssStrippedUrl req (cssAbsoluteUrl req u) <> [].
Proof.
  intros Hu. destruct (cssAbsoluteUrl_shape req u Hu) as [x ->].
  unfold cssStrippedUrl. destruct (streq _ _); [done|].
  intros H. apply (f_equal length) in H. rewrite !length_app in H.
  simpl in H. lia.
Qed.

Lemma stripResponse_keeps_keys_nonempty (req : Request) (res : Response)
  (m : LinkMap) :
  map_Forall (fun cl _ => url cl <> []) m ->
  map_Forall (fun cl _ => url cl <> []) (stripResponse req res m).2.
Proof.
  intros Hm. unfold stripResponse.
  destruct (stripLocation _ _ _) as [[h1 m1]|] eqn:El; [|done].
  assert (map_Forall (fun cl (_ : gostring) => url cl <> []) m1) as Hm1.
  { destruct (stripLocation_cases _ _ _ _ _ El)
      as [(_ & _ & ->)|(_ & stripped & Hn & _ & ->)]; [done|].
    apply map_Forall_insert_2; [|done]. by apply normalizeUrl_Some_nonempty in Hn. }
  destruct (ResBody res) as [body|]; [|done].
  assert (map_Forall (fun cl (_ : gostring) => url cl <> [])
            (stripBody (RemoteAddr req) body m1).2) as Hm2.
  { apply (replace_loop_inv match_https (stripLink (RemoteAddr req)) (fun _ => True)
             (map_Forall (fun cl (_ : gostring) => url cl <> []))); [done| |done].
    intros u st _ Hst. unfold stripLink.
    destruct (normalizeUrl _) as [t|] eqn:En; [|done].
    apply map_Forall_insert_2; [|done]. by apply normalizeUrl_Some_nonempty in En. }
  destruct (stripBody _ body m1) as [body1 m2].
  assert (map_Forall (fun cl (_ : gostring) => url cl <> [])
            (stripCss req (stripCookies h1) body1 m2).2) as Hm3.
  { unfold stripCss. destruct (Contains _ _); [|done].
    apply (replace_loop_inv match_cssurl (stripCssUrl req)
             (fun u => HasPrefix u $"url(" = true)
             (map_Forall (fun cl (_ : gostring) => url cl <> []))); [| |done].
    - apply match_cssurl_prefix.
    - intros u st Hu Hst. unfold stripCssUrl. destruct (cssLeft u); [done|].
      apply map_Forall_insert_2; [|done]. by apply cssStrippedUrl_nonempty. }
  by destruct (stripCss req _ body1 m2) as [body2 m3].
Qed.

Section LinkMapOfTransactions.
Variable client_Do : Request -> option Response.
Variable ResolveReference : URL -> URL -> URL.
Variable gzip_NewReader : gostring -> bool.
Variable gunzip : gostring -> option gostring.
Variable gzip : gostring -> gostring.

Local Abbreviation serve :=
  (ServeHTTP client_Do ResolveReference gzip_NewReader gunzip gzip).
Local Abbreviation upstream := (makeRequest client_Do ResolveReference).

(** What [ServeHTTP] leaves in the link map is the map it started with or
    the map [stripResponse] left, for a request of the same peer. *)
Lemma ServeHTTP_link_map header0 req m :
  (serve header0 req m).2 = m
  \/ exists req' res, RemoteAddr req' = RemoteAddr req
       /\ (serve header0 req m).2 = (stripResponse req' res m).2.
Proof.
  unfold ServeHTTP. destruct (ReqBody req) as [reqBody|]; [|by left].
  destruct (makeRequest _ _ _ _) as [[req' res]|] eqn:Eu; [|by left].
  destruct (decompress _ _ _) as [res1|]; [|by left].
  right. exists req', res1. split.
  - by apply makeRequest_same_peer in Eu.
  - by destruct (stripResponse req' res1 m) as [[[body|] res2] m'].
Qed.

(** X5: a transaction never removes a key from the link map: a key bound
    before [ServeHTTP] is bound after it, whatever the outcome. *)
Theorem link_map_keeps_its_keys header0 req (m : LinkMap) (key : clientLink) :
  is_Some (m !! key) -> is_Some ((serve header0 req m).2 !! key).
Proof.
  intros Hm. destruct (ServeHTTP_link_map header0 req m)
    as [->|(req' & res & _ & ->)]; [done|].
  by apply stripResponse_keeps_bound.
Qed.

(** X6: a transaction writes only under its own client identifier: an
    entry whose client differs from [normalizeIP] of the peer of the request
    is left as it was. *)
Theorem other_clients_untouched header0 req (m : LinkMap) (cl : clientLink) :
  clientIP cl <> normalizeIP (RemoteAddr req) ->
  (serve header0 req m).2 !! cl = m !! cl.
Proof.
  intros Hcl. destruct (ServeHTTP_link_map header0 req m)
    as [->|(req' & res & Hpeer & ->)]; [done|].
  apply stripResponse_other_client. by rewrite Hpeer.
Qed.

(** X7: no transaction stores a link under the empty url: if every key of
    the link map has a non-empty url before [ServeHTTP], so it has after. *)
Theorem link_map_keys_nonempty header0 req (m : LinkMap) :
  map_Forall (fun cl _ => url cl <> []) m ->
  map_Forall (fun cl _ => url cl <> [])
    (ServeHTTP client_Do ResolveReference gzip_NewReader gunzip gzip header0 req m).2.
Proof.
  intros Hm. destruct (ServeHTTP_link_map header0 req m)
    as [->|(req' & res & _ & ->)]; [done|].
  by apply stripResponse_keeps_keys_nonempty.
Qed.

(** X8: a request whose url fails to normalize is looked up under the empty
    url, which no transaction stores: with a link map whose keys have
    non-empty urls, [makeRequest] hands the request to the client as it
    is. *)
Theorem unnormalizable_request_forwarded (m : LinkMap) (req : Request) :
  map_Forall (fun cl _ => url cl <> []) m ->
  normalizeUrl (URL_String (ReqURL req)) = None ->
  upstream m req = (fun res => (req, res)) <$> client_Do req.
Proof.
  intros Hm Hn. unfold makeRequest, restoreLink, getLink, requestKey.
  rewrite Hn. cbn [default].
  destruct (m !! _) as [link|] eqn:El.
  - by apply Hm in El.
  - cbn [mbind option_bind]. by destruct (client_Do req).
Qed.

(** X9: the request handed to the upstream client differs from the incoming
    one in its url at most and in its headers: method, host, close flag,
    body and peer are copied, the headers [Cache-Control],
    [If-Modified-Since] and [If-None-Match] are dropped and every other
    header is kept with all its values. *)
Theorem dispatched_request_projected (m : LinkMap) (req req' : Request)
  (reqBody : gostring) (res : Response) :
  upstream m (buildProxyReq req reqBody) = Some (req', res) ->
  client_Do req' = Some res /\
  Method req' = Method req /\ ReqHost req' = ReqHost req /\
  Close req' = Close req /\ ReqBody req' = Some reqBody /\
  RemoteAddr req' = RemoteAddr req /\
  forall k : gostring,
    ReqHeader req' !! k =
      if decide (k ∈ ignoredRequestHeaders) then None else ReqHeader req !! k.
Proof.
  unfold makeRequest, restoreLink.
  assert (forall k : gostring,
    ReqHeader (buildProxyReq req reqBody) !! k =
      if decide (k ∈ ignoredRequestHeaders) then None else ReqHeader req !! k) as Hh.
  { intros k. cbn [buildProxyReq ReqHeader]. rewrite copyHeaders_lookup, lookup_empty.
    destruct (decide _); [done|]. by destruct (ReqHeader req !! k). }
  destruct (getLink m _) as [link|]; cbn [mbind option_bind].
  - destruct (URL_Parse _ _ _) as [u|]; cbn [mbind option_bind]; [|done].
    destruct (client_Do _) as [r|] eqn:Ed; cbn [mbind option_bind]; [|done].
    intros [= <- <-]. by repeat split.
  - destruct (client_Do _) as [r|] eqn:Ed; cbn [mbind option_bind]; [|done].
    intros [= <- <-]. by repeat split.
Qed.
End LinkMapOfTransactions.

Lemma link_map_keeps_its_keys_witness :
  is_Some
    ((serve_fixed page_response (victim_get $"x.test" $"/")
        {[ mkClientLink $"10.0.0.9" $"http://old.test/" := $"https://old.test/" ]}).2
       !! mkClientLink $"10.0.0.9" $"http://old.test/").
Proof.
  apply (link_map_keeps_its_keys (fixed_upstream page_response) resolve_absolute
           framed unframe frame).
  exists $"https://old.test/". apply lookup_singleton_eq.
Defined.

Lemma other_clients_untouched_witness :
  (serve_fixed page_response (victim_get $"x.test" $"/") ∅).2
     !! mkClientLink $"10.0.0.9" $"http://x.test/a"
  = (∅ : LinkMap) !! mkClientLink $"10.0.0.9" $"http://x.test/a".
Proof.
  apply (other_clients_untouched (fixed_upstream page_response) resolve_absolute
           framed unframe frame).
  intros H. vm_compute in H. discriminate H.
Defined.

Lemma link_map_keys_nonempty_witness :
  map_Forall (fun cl (_ : gostring) => url cl <> [])
    (serve_fixed page_response (victim_get $"x.test" $"/") ∅).2.
Proof.
  apply (link_map_keys_nonempty (fixed_upstream page_response) resolve_absolute
           framed unframe frame).
  apply map_Forall_empty.
Defined.

Lemma unnormalizable_request_forwarded_witness :
  let req := mkRequest $"GET" (mkURL [] [] None [] $"//:x" [] false false [] [] [])
                       ∅ $"a.test" false (Some []) $"10.0.0.7:5123" in
  makeRequest (fixed_upstream page_response) resolve_absolute ∅ req
  = (fun res => (req, res)) <$> fixed_upstream page_response req.
Proof.
  intros req.
  apply (unnormalizable_request_forwarded (fixed_upstream page_response)
           resolve_absolute ∅ req).
  - apply map_Forall_empty.
  - reflexivity.
Defined.

Lemma dispatched_request_projected_witness :
  let req := mkRequest $"GET" (mkURL $"http" [] None $"x.test" $"/" [] false false [] [] [])
               {[ $"Cache-Control" := [ $"no-cache" ]; $"Accept" := [ $"*/*" ] ]}
               $"x.test" false (Some []) $"10.0.0.7:5123" in
  ReqHeader (buildProxyReq req []) !! $"Cache-Control" = None /\
  ReqHeader (buildProxyReq req []) !! $"Accept" = Some [ $"*/*" ].
Proof.
  intros req.
  destruct (dispatched_request_projected (fixed_upstream page_response)
              resolve_absolute ∅ req (buildProxyReq req []) [] page_response)
    as (_ & _ & _ & _ & _ & _ & H).
  - reflexivity.
  - split.
    + rewrite (H $"Cache-Control"). vm_compute. reflexivity.
    + rewrite (H $"Accept"). vm_compute. reflexivity.
Defined.

(** ** More on the body pass *)

Lemma stripBody_match_pair (addr s : gostring) (m : LinkMap) (n : nat) :
  match_https s = Some n ->
  stripBody addr s m =
    let '(r, m1) := stripLink addr (take n s) m in
    let '(out, m2) := stripBody addr (drop n s) m1 in
    (r ++ out, m2).
Proof.
  intros Hm. destruct (match_https_Some _ _ Hm) as (_ & Hn & _).
  unfold stripBody, ReplaceAllFunc. apply replace_loop_match; [done|lia].
Qed.

Lemma stripBody_literal_pair (addr : gostring) (c : ascii) (s : gostring)
  (m : LinkMap) :
  match_https (c :: s) = None ->
  stripBody addr (c :: s) m =
    let '(out, m1) := stripBody addr s m in (c :: out, m1).
Proof. intros Hm. unfold stripBody, ReplaceAllFunc. by apply replace_loop_literal. Qed.

(** X10: when no match of the body pattern normalizes, the body pass
    returns the body as it is and stores nothing. *)
Theorem failed_normalizations_leave_body (addr body : gostring) (m : LinkMap) :
  Forall (fun u => normalizeUrl ($"http://" ++ drop 8 u) = None) (httpsMatches body) ->
  stripBody addr body m = (body, m).
Proof.
  remember (length body) as len eqn:Hlen.
  revert body Hlen. induction len as [len IH] using lt_wf_ind.
  intros [|c body] Hlen Hall; [done|].
  destruct (match_https (c :: body)) as [n|] eqn:Em.
  - rewrite (httpsMatches_match _ _ Em) in Hall. apply Forall_cons in Hall.
    destruct Hall as [Hu Hall].
    destruct (match_https_Some _ _ Em) as (_ & Hn & _).
    rewrite (stripBody_match_pair _ _ _ _ Em). unfold stripLink. rewrite Hu.
    rewrite (IH (length (drop n (c :: body)))); [by rewrite take_drop| |done|done].
    rewrite length_drop. simpl in *. lia.
  - rewrite (httpsMatches_literal _ _ Em) in Hall.
    rewrite (stripBody_literal_pair _ _ _ _ Em).
    rewrite (IH (length body)); [done|simpl in Hlen; lia|done|done].
Qed.

Lemma failed_normalizations_leave_body_witness :
  stripBody $"10.0.0.7:5123" $"see https://%zz for more" ∅
  = ($"see https://%zz for more", ∅).
Proof.
  apply failed_normalizations_leave_body.
  assert (httpsMatches $"see https://%zz for more" = [ $"https://%zz" ]) as ->
    by (vm_compute; reflexivity).
  constructor; [vm_compute; reflexivity|constructor].
Defined.

(** X11: every entry the body pass adds or changes belongs to the client of
    the request, has a value that begins with [https://] and, as its url,
    the normalization of the value with [https] replaced by [http], which
    begins with [http://]. *)
Theorem body_pass_entries (addr body : gostring) (m : LinkMap)
  (cl : clientLink) (link : gostring) :
  (stripBody addr body m).2 !! cl = Some link ->
  m !! cl = Some link
  \/ (clientIP cl = normalizeIP addr
      /\ HasPrefix link $"https://" = true
      /\ normalizeUrl ($"http://" ++ drop 8 link) = Some (url cl)
      /\ HasPrefix (url cl) $"http://" = true).
Proof.
  revert cl link.
  apply (replace_loop_inv match_https (stripLink addr)
           (fun u => HasPrefix u $"https://" = true)
           (fun st => forall cl link, st !! cl = Some link ->
              m !! cl = Some link
              \/ (clientIP cl = normalizeIP addr
                  /\ HasPrefix link $"https://" = true
                  /\ normalizeUrl ($"http://" ++ drop 8 link) = Some (url cl)
                  /\ HasPrefix (url cl) $"http://" = true))).
  - apply match_https_prefix.
  - intros u st Hu Hst cl link. unfold stripLink.
    destruct (normalizeUrl _) as [t|] eqn:En; [|apply Hst].
    unfold setLink. cbn [snd].
    destruct (decide (mkClientLink (normalizeIP addr) t = cl)) as [<-|Hne].
    + rewrite lookup_insert_eq. intros [= <-]. right.
      repeat split; try done. by apply normalizeUrl_http in En.
    + rewrite lookup_insert_ne by done. apply Hst.
  - intros cl link H. by left.
Qed.

Lemma body_pass_entries_witness :
  (∅ : LinkMap) !! mkClientLink $"10.0.0.7" $"http://x.test/a" = Some $"https://x.test/a"
  \/ (clientIP (mkClientLink $"10.0.0.7" $"http://x.test/a") = normalizeIP $"10.0.0.7:5123"
      /\ HasPrefix $"https://x.test/a" $"https://" = true
      /\ normalizeUrl ($"http://" ++ drop 8 $"https://x.test/a")
         = Some (url (mkClientLink $"10.0.0.7" $"http://x.test/a"))
      /\ HasPrefix (url (mkClientLink $"10.0.0.7" $"http://x.test/a")) $"http://" = true).
Proof.
  apply (body_pass_entries $"10.0.0.7:5123" $"<a href=https://x.test/a>").
  vm_compute. reflexivity.
Defined.




(** ** Transactions that rewrite nothing, and transactions that fail *)

Lemma desecure_without_Secure (cookie : gostring) :
  Contains cookie $"Secure" = false -> desecure cookie = cookie.
Proof.
  unfold desecure, Contains, LastIndex, Index.
  destruct (last_index_of cookie $"Secure") as [i|] eqn:El; [|done].
  destruct (index_of cookie $"Secure") as [j|] eqn:Ei.
  - intros H. apply Z.leb_gt in H. lia.
  - intros _. exfalso. revert i El Ei. clear.
    induction cookie as [|c cookie IH]; intros i; [done|].
    cbn [last_index_of index_of].
    destruct (last_index_of cookie $"Secure") as [k|].
    + intros _. destruct (HasPrefix (c :: cookie) $"Secure"); [done|].
      destruct (index_of cookie $"Secure") as [j|] eqn:Ej; [done|].
      intros _. by eapply IH.
    + by destruct (HasPrefix (c :: cookie) $"Secure").
Qed.

Lemma stripCookies_without_Secure (h : Header) :
  (forall cookies, h !! $"Set-Cookie" = Some cookies ->
     Forall (fun c => Contains c $"Secure" = false) cookies) ->
  stripCookies h = h.
Proof.
  intros Hc. unfold stripCookies.
  destruct (h !! $"Set-Cookie") as [cookies|] eqn:E; [|done].
  specialize (Hc cookies eq_refl).
  replace (map desecure cookies) with cookies; [by apply insert_id|].
  clear E. induction Hc as [|c cookies Hc _ IH]; [done|].
  cbn [map]. by rewrite (desecure_without_Secure _ Hc), <- IH.
Qed.

Lemma withResHeader_same (res : Response) : withResHeader res (ResHeader res) = res.
Proof. by destruct res. Qed.

Section Outcomes.
Variable client_Do : Request -> option Response.
Variable ResolveReference : URL -> URL -> URL.
Variable gzip_NewReader : gostring -> bool.
Variable gunzip : gostring -> option gostring.
Variable gzip : gostring -> gostring.

Local Abbreviation serve :=
  (ServeHTTP client_Do ResolveReference gzip_NewReader gunzip gzip).
Local Abbreviation upstream := (makeRequest client_Do ResolveReference).

(** X13: a response with nothing to strip passes through: when the upstream
    response is not compressed, its [Location] does not begin with [https],
    no [Set-Cookie] value holds [Secure], and the body holds neither
    [https://] nor an opening [url] parenthesis, [ServeHTTP] writes the
    upstream status, the upstream body byte for byte and the upstream
    headers minus the ignored ones, and leaves the link map as it was. *)
Theorem plain_response_passed_through header0 req (m : LinkMap) reqBody req' res body :
  ReqBody req = Some reqBody ->
  upstream m (buildProxyReq req reqBody) = Some (req', res) ->
  streq (Header_Get (ResHeader res) $"Content-Encoding") $"gzip" = false ->
  HasPrefix (Header_Get (ResHeader res) $"Location") $"https" = false ->
  (forall cookies, ResHeader res !! $"Set-Cookie" = Some cookies ->
     Forall (fun c => Contains c $"Secure" = false) cookies) ->
  ResBody res = Some body ->
  Contains body $"https://" = false ->
  Contains body $"url(" = false ->
  serve header0 req m =
    (Some (mkWritten (copyHeaders ignoredResponseHeaders (ResHeader res) header0)
                     (StatusCode res) body), m).
Proof.
  intros Hb Hu Hgz Hloc Hck Hbody Hhttps Hcss.
  unfold ServeHTTP. rewrite Hb, Hu.
  unfold decompress. rewrite Hgz.
  unfold stripResponse, stripLocation. rewrite Hloc, Hbody.
  rewrite (stripCookies_without_Secure _ Hck), withResHeader_same.
  rewrite (stripBody_no_https _ _ _ Hhttps), (stripCss_no_url _ _ _ _ Hcss).
  unfold recompress. by rewrite Hgz.
Qed.

(** X14: a [Location] that begins with [https] and does not normalize makes
    the transaction fail: nothing is written to the victim and the link map
    is left as it was. *)
Theorem bad_Location_aborts header0 req (m : LinkMap) reqBody req' res res1 :
  ReqBody req = Some reqBody ->
  upstream m (buildProxyReq req reqBody) = Some (req', res) ->
  decompress gzip_NewReader gunzip res = Some res1 ->
  HasPrefix (Header_Get (ResHeader res) $"Location") $"https" = true ->
  normalizeUrl ($"http" ++ drop 5 (Header_Get (ResHeader res) $"Location")) = None ->
  serve header0 req m = (None, m).
Proof.
  intros Hb Hu Hd Hloc Hn. unfold ServeHTTP. rewrite Hb, Hu, Hd.
  destruct (decompress_header _ _ _ _ Hd) as [Hh _].
  unfold stripResponse, stripLocation. by rewrite Hh, Hloc, Hn.
Qed.

(** X15: the [Location] step takes effect before the body is read: when
    reading the body of a redirect to an https url fails, nothing is written
    to the victim, yet the link map holds the original [Location] under the
    downgraded one for the client of the request. *)
Theorem failed_body_keeps_Location_link header0 req (m : LinkMap) reqBody req' res
  (stripped : gostring) :
  ReqBody req = Some reqBody ->
  upstream m (buildProxyReq req reqBody) = Some (req', res) ->
  streq (Header_Get (ResHeader res) $"Content-Encoding") $"gzip" = false ->
  HasPrefix (Header_Get (ResHeader res) $"Location") $"https" = true ->
  normalizeUrl ($"http" ++ drop 5 (Header_Get (ResHeader res) $"Location"))
    = Some stripped ->
  ResBody res = None ->
  serve header0 req m =
    (None, setLink m (mkClientLink (normalizeIP (RemoteAddr req)) stripped)
                   (Header_Get (ResHeader res) $"Location")).
Proof.
  intros Hb Hu Hgz Hloc Hn Hbody. unfold ServeHTTP. rewrite Hb, Hu.
  apply makeRequest_same_peer in Hu. cbn [buildProxyReq RemoteAddr] in Hu.
  unfold decompress. rewrite Hgz.
  unfold stripResponse, stripLocation. rewrite Hloc, Hn. cbn [mbind option_bind].
  by rewrite Hbody, Hu.
Qed.
End Outcomes.

Lemma plain_response_passed_through_witness :
  let res := response 200 {[ $"Content-Type" := [ $"text/html" ] ]} $"<p>plain page</p>" in
  ServeHTTP (fixed_upstream res) resolve_absolute framed unframe frame ∅
            (victim_get $"x.test" $"/") ∅
  = (Some (mkWritten (copyHeaders ignoredResponseHeaders (ResHeader res) ∅)
                     (StatusCode res) $"<p>plain page</p>"), ∅).
Proof.
  intros res.
  apply (plain_response_passed_through (fixed_upstream res) resolve_absolute
           framed unframe frame ∅ (victim_get $"x.test" $"/") ∅ []
           (buildProxyReq (victim_get $"x.test" $"/") []) res $"<p>plain page</p>").
  - reflexivity.
  - reflexivity.
  - reflexivity.
  - reflexivity.
  - intros cookies H. vm_compute in H. discriminate H.
  - reflexivity.
  - reflexivity.
  - reflexivity.
Defined.

Lemma bad_Location_aborts_witness :
  let res := response 302 {[ $"Location" := [ $"https://%zz" ] ]} $"" in
  ServeHTTP (fixed_upstream res) resolve_absolute framed unframe frame ∅
            (victim_get $"x.test" $"/") ∅
  = (None, ∅).
Proof.
  intros res.
  apply (bad_Location_aborts (fixed_upstream res) resolve_absolute
           framed unframe frame ∅ (victim_get $"x.test" $"/") ∅ []
           (buildProxyReq (victim_get $"x.test" $"/") []) res res);
    reflexivity.
Defined.

Lemma failed_body_keeps_Location_link_witness :
  let res := mkResponse 302 $"" {[ $"Location" := [ $"https://bank.example/login" ] ]} None in
  ServeHTTP (fixed_upstream res) resolve_absolute framed unframe frame ∅
            (victim_get $"bank.example" $"/") ∅
  = (None, setLink ∅ (mkClientLink (normalizeIP (RemoteAddr (victim_get $"bank.example" $"/")))
                         $"http://bank.example/login")
                   (Header_Get (ResHeader res) $"Location")).
Proof.
  intros res.
  apply (failed_body_keeps_Location_link (fixed_upstream res) resolve_absolute
           framed unframe frame ∅ (victim_get $"bank.example" $"/") ∅ []
           (buildProxyReq (victim_get $"bank.example" $"/") []) res);
    reflexivity.
Defined.

(** ** Quoted references in stylesheets *)

Lemma is_quote_cases (q : ascii) :
  is_quote q = true -> q = "'"%char \/ q = dquote.
Proof.
  unfold is_quote. intros H. apply orb_true_iff in H as [H|H];
    apply Ascii.eqb_eq in H; auto.
Qed.

Lemma run_until (cls : ascii -> bool) (s t : gostring) (c : ascii) :
  Forall (fun x => cls x = true) s -> cls c = false -> run cls (s ++ c :: t) = s.
Proof.
  intros Hs Hc. induction Hs as [|x s Hx _ IH]; cbn [app run].
  - by rewrite Hc.
  - by rewrite Hx, IH.
Qed.

Lemma is_quote_not_css_class (q : ascii) : is_quote q = true -> css_class q = false.
Proof.
  intros Hq. destruct (css_class q) eqn:E; [|done].
  apply css_class_no_quote in E. congruence.
Qed.

Lemma HasPrefix_before_quote (ref rest p : gostring) (q : ascii) :
  is_quote q = true ->
  Forall (fun c => is_quote c = false) p ->
  HasPrefix (ref ++ q :: rest) p = HasPrefix ref p.
Proof.
  intros Hq Hp. revert ref. induction Hp as [|c p Hc _ IH]; intros ref; [done|].
  destruct ref as [|x ref]; cbn [app HasPrefix].
  - destruct (Ascii.eqb_spec q c) as [->|]; [congruence|done].
  - destruct (Ascii.eqb x c); [apply IH|done].
Qed.

(** X16: what the CSS callback does with a quoted reference, for any
    reference and both kinds of quote: the pattern matches the whole of
    [url], parenthesis, quote, reference, quote, parenthesis, and the
    callback resolves the reference followed by the closing quote: the
    absolute url it stores and the url it emits both end with that quote. *)
Theorem quoted_css_reference (req : Request) (q1 q2 : ascii)
  (ref rest : gostring) (m : LinkMap) :
  is_quote q1 = true -> is_quote q2 = true ->
  Forall (fun c => css_class c = true) ref ->
  HasPrefix ref $"http" = false ->
  Contains ($"url(" ++ q1 :: ref ++ q2 :: $")") $"base64" = false ->
  let u := $"url(" ++ q1 :: ref ++ q2 :: $")" in
  let absoluteUrl :=
    Scheme (ReqURL req) ++ $"://" ++ ReqHost req
    ++ (if HasPrefix ref $"/" then ref ++ [q2]
        else Path (ReqURL req) ++ $"/" ++ ref ++ [q2]) in
  let strippedUrl :=
    if streq (Scheme (ReqURL req)) $"https" then $"http" ++ drop 5 absoluteUrl
    else absoluteUrl in
  match_cssurl (u ++ rest) = Some (length u) /\
  stripCssUrl req u m
  = ($"url('" ++ strippedUrl ++ $"')",
     setLink m (mkClientLink (normalizeIP (RemoteAddr req)) strippedUrl) absoluteUrl).
Proof.
  intros Hq1 Hq2 Hcls Hhttp Hb64. cbv zeta. split.
  - unfold match_cssurl.
    change (HasPrefix (($"url(" ++ q1 :: ref ++ q2 :: $")") ++ rest) $"url(") with true.
    cbv iota zeta.
    change (drop 4 (($"url(" ++ q1 :: ref ++ q2 :: $")") ++ rest))
      with (q1 :: (ref ++ q2 :: $")") ++ rest).
    cbn [opt_quote]. rewrite Hq1. cbn [drop]. rewrite !drop_0.
    rewrite <- app_assoc. cbn [app list_ascii_of_string].
    rewrite (run_until css_class ref _ q2 Hcls (is_quote_not_css_class _ Hq2)).
    rewrite drop_app_length. cbn [opt_quote]. rewrite Hq2. cbn [drop]. rewrite ?drop_0.
    cbn [HasPrefix]. rewrite Ascii.eqb_refl.
    f_equal. cbn [length]. rewrite length_app. cbn [length]. lia.
  - assert (slice ($"url(" ++ q1 :: ref ++ q2 :: $")") 5
              (length ($"url(" ++ q1 :: ref ++ q2 :: $")") - 1) = ref ++ [q2]) as Hslice.
    { unfold slice. rewrite length_app. cbn [length list_ascii_of_string].
      rewrite length_app. cbn [length].
      replace (4 + S (length ref + 2) - 1 - 5)%nat with (length (ref ++ [q2]))
        by (rewrite length_app; simpl; lia).
      change (drop 5 (["u"; "r"; "l"; "("]%char ++ q1 :: ref ++ [q2; ")"%char]))
        with (ref ++ [q2] ++ [")"%char]).
      rewrite app_assoc. by rewrite take_app_length. }
    assert (HasPrefix ($"url(" ++ q1 :: ref ++ q2 :: $")") $"url(http" = false) as H1.
    { apply is_quote_cases in Hq1 as [->| ->]; reflexivity. }
    assert (HasPrefix (ref ++ q2 :: $")") $"http" = false) as H2.
    { rewrite HasPrefix_before_quote; [done|done|]. repeat constructor. }
    assert (HasPrefix (ref ++ q2 :: $")") $"/" = HasPrefix ref $"/") as H3.
    { apply HasPrefix_before_quote; [done|]. repeat constructor. }
    assert (cssLeft ($"url(" ++ q1 :: ref ++ q2 :: $")") = false) as Hleft.
    { unfold cssLeft. rewrite H1, Hb64.
      apply is_quote_cases in Hq1 as [->| ->].
      - change (HasPrefix ($"url(" ++ "'"%char :: ref ++ q2 :: $")") $"url('http")
          with (HasPrefix (ref ++ q2 :: $")") $"http").
        rewrite H2. reflexivity.
      - change (HasPrefix ($"url(" ++ dquote :: ref ++ q2 :: $")")
                  ($"url(" ++ [dquote] ++ $"http"))
          with (HasPrefix (ref ++ q2 :: $")") $"http").
        rewrite H2. reflexivity. }
    assert (cssAbsoluteUrl req ($"url(" ++ q1 :: ref ++ q2 :: $")")
            = Scheme (ReqURL req) ++ $"://" ++ ReqHost req
              ++ (if HasPrefix ref $"/" then ref ++ [q2]
                  else Path (ReqURL req) ++ $"/" ++ ref ++ [q2])) as Habs.
    { unfold cssAbsoluteUrl. rewrite Hslice.
      apply is_quote_cases in Hq1 as [->| ->].
      - change (HasPrefix ($"url(" ++ "'"%char :: ref ++ q2 :: $")") $"url('/")
          with (HasPrefix (ref ++ q2 :: $")") $"/").
        change (HasPrefix ($"url(" ++ "'"%char :: ref ++ q2 :: $")")
                  ($"url(" ++ [dquote] ++ $"/")) with false.
        change (HasPrefix ($"url(" ++ "'"%char :: ref ++ q2 :: $")") $"url(/") with false.
        change (HasPrefix ($"url(" ++ "'"%char :: ref ++ q2 :: $")") $"url('") with true.
        rewrite H3. by destruct (HasPrefix ref $"/").
      - change (HasPrefix ($"url(" ++ dquote :: ref ++ q2 :: $")") $"url('/") with false.
        change (HasPrefix ($"url(" ++ dquote :: ref ++ q2 :: $")")
                  ($"url(" ++ [dquote] ++ $"/"))
          with (HasPrefix (ref ++ q2 :: $")") $"/").
        change (HasPrefix ($"url(" ++ dquote :: ref ++ q2 :: $")") $"url(/") with false.
        change (HasPrefix ($"url(" ++ dquote :: ref ++ q2 :: $")") $"url('") with false.
        change (HasPrefix ($"url(" ++ dquote :: ref ++ q2 :: $")") ($"url(" ++ [dquote]))
          with true.
        rewrite H3. by destruct (HasPrefix ref $"/"). }
    unfold stripCssUrl. rewrite Hleft, Habs. reflexivity.
Qed.

Lemma quoted_css_reference_witness :
  let req := https_get $"site.test" $"/style.css" in
  match_cssurl ($"url('/img/bg.png')" ++ $"}") = Some 18%nat /\
  stripCssUrl req $"url('/img/bg.png')" ∅
  = ($"url('http://site.test/img/bg.png'')",
     setLink ∅ (mkClientLink $"10.0.0.7" $"http://site.test/img/bg.png'")
             $"https://site.test/img/bg.png'").
Proof.
  intros req.
  apply (quoted_css_reference req "'" "'" $"/img/bg.png" $"}" ∅).
  - reflexivity.
  - reflexivity.
  - repeat constructor.
  - reflexivity.
  - reflexivity.
Defined.

(** ** The redirect-following prototype *)

Section PrototypeProperties.
Import Prototype.

Lemma overwriteCookie_found (cookies : list gostring) (value : gostring)
  (cookies' : list gostring) :
  overwriteCookie cookies value = (cookies', true) ->
  keysOf cookies' = keysOf cookies /\ value ∈ cookies'
  /\ getCookieKey value ∈ keysOf cookies
  /\ forall c, c ∈ cookies -> getCookieKey c <> getCookieKey value -> c ∈ cookies'.
Proof.
  revert cookies'. induction cookies as [|c cookies IH]; intros cookies'; [done|].
  cbn [overwriteCookie]. destruct (streq _ _) eqn:E.
  - apply streq_eq in E. intros [= <-]. cbn [keysOf map]. rewrite E.
    repeat split; [apply list_elem_of_here|apply list_elem_of_here|].
    intros c0 Hin Hne. apply elem_of_cons in Hin as [->|Hin]; [congruence|].
    by apply list_elem_of_further.
  - destruct (overwriteCookie cookies value) as [rest' found] eqn:Er.
    intros [= <- ->]. destruct (IH _ eq_refl) as (Hk & Hv & Hin & Hkeep).
    cbn [keysOf map]. fold (keysOf rest') (keysOf cookies). rewrite Hk.
    repeat split; [by apply list_elem_of_further|by apply list_elem_of_further|].
    intros c0 Hc0 Hne. apply elem_of_cons in Hc0 as [->|Hc0].
    + apply list_elem_of_here.
    + apply list_elem_of_further. by apply Hkeep.
Qed.

Lemma overwriteCookie_not_found (cookies : list gostring) (value : gostring)
  (cookies' : list gostring) :
  overwriteCookie cookies value = (cookies', false) ->
  getCookieKey value ∉ keysOf cookies.
Proof.
  revert cookies'. induction cookies as [|c cookies IH]; intros cookies'.
  - intros _. apply not_elem_of_nil.
  - cbn [overwriteCookie]. destruct (streq _ _) eqn:E; [done|].
    destruct (overwriteCookie cookies value) as [rest' found] eqn:Er.
    intros [= <- ->]. cbn [keysOf map]. apply not_elem_of_cons. split.
    + intros Heq. symmetry in Heq. apply streq_eq in Heq. congruence.
    + by eapply IH.
Qed.

(** One step of the merge, on the cookie list. *)
Lemma mergeCookie_cookies (h : Header) (value : gostring) :
  exists merged,
    mergeCookie h value !! $"Cookie" = Some merged /\
    value ∈ merged /\
    (forall c, c ∈ cookiesOf h -> getCookieKey c <> getCookieKey value -> c ∈ merged) /\
    ((getCookieKey value ∈ keysOf (cookiesOf h) /\ keysOf merged = keysOf (cookiesOf h))
     \/ ((getCookieKey value ∉ keysOf (cookiesOf h)) /\ merged = cookiesOf h ++ [value])).
Proof.
  unfold mergeCookie. fold (cookiesOf h).
  destruct (overwriteCookie (cookiesOf h) value) as [cookies' [|]] eqn:E.
  - destruct (overwriteCookie_found _ _ _ E) as (Hk & Hv & Hin & Hkeep).
    exists cookies'. rewrite lookup_insert_eq. repeat split; [done|done|]. by left.
  - pose proof (overwriteCookie_not_found _ _ _ E) as Hnot.
    exists (cookiesOf h ++ [value]). rewrite lookup_insert_eq.
    repeat split.
    + apply elem_of_app. right. apply list_elem_of_here.
    + intros c Hc _. apply elem_of_app. by left.
    + by right.
Qed.

Lemma mergeCookie_other (h : Header) (value k : gostring) :
  k <> $"Cookie" -> mergeCookie h value !! k = h !! k.
Proof.
  intros Hk. unfold mergeCookie.
  destruct (overwriteCookie _ _) as [cookies' [|]]; by rewrite lookup_insert_ne.
Qed.

Lemma cookiesOf_mergeCookie (h : Header) (value : gostring) :
  value ∈ cookiesOf (mergeCookie h value) /\
  (forall c, c ∈ cookiesOf h -> getCookieKey c <> getCookieKey value ->
     c ∈ cookiesOf (mergeCookie h value)) /\
  ((getCookieKey value ∈ keysOf (cookiesOf h)
    /\ keysOf (cookiesOf (mergeCookie h value)) = keysOf (cookiesOf h))
   \/ ((getCookieKey value ∉ keysOf (cookiesOf h))
       /\ cookiesOf (mergeCookie h value) = cookiesOf h ++ [value])).
Proof.
  destruct (mergeCookie_cookies h value) as (merged & Hl & H).
  assert (cookiesOf (mergeCookie h value) = merged) as ->
    by (unfold cookiesOf; by rewrite Hl).
  exact H.
Qed.

Lemma foldl_mergeCookie_other (values : list gostring) (k : gostring) :
  k <> $"Cookie" ->
  forall h : Header, foldl mergeCookie h values !! k = h !! k.
Proof.
  intros Hk. induction values as [|v values IH]; intros h; [done|].
  cbn [foldl]. by rewrite IH, mergeCookie_other.
Qed.

Lemma foldl_mergeCookie_length (values : list gostring) :
  forall h : Header,
    (length (cookiesOf h) <= length (cookiesOf (foldl mergeCookie h values))
     <= length (cookiesOf h) + length values)%nat.
Proof.
  induction values as [|v values IH]; intros h; cbn [foldl length]; [lia|].
  specialize (IH (mergeCookie h v)).
  destruct (cookiesOf_mergeCookie h v) as (_ & _ & [[_ Hk]|[_ Hk]]).
  - apply (f_equal length) in Hk. unfold keysOf in Hk. rewrite !length_map in Hk. lia.
  - rewrite Hk, length_app in IH. cbn [length] in IH. lia.
Qed.

Lemma foldl_mergeCookie_keys (values : list gostring) (k : gostring) :
  forall h : Header,
    k ∈ keysOf (cookiesOf (foldl mergeCookie h values))
    <-> k ∈ keysOf (cookiesOf h) \/ k ∈ keysOf values.
Proof.
  induction values as [|v values IH]; intros h; cbn [foldl].
  - split; [by left|]. intros [H|H]; [done|]. by apply elem_of_nil in H.
  - rewrite IH. cbn [keysOf map]. fold (keysOf values). rewrite elem_of_cons.
    destruct (cookiesOf_mergeCookie h v) as (_ & _ & [[Hin ->]|[_ ->]]).
    + split; [tauto|]. intros [H|[->|H]]; tauto.
    + unfold keysOf at 1. rewrite map_app. cbn [map]. fold (keysOf (cookiesOf h)).
      rewrite elem_of_app, list_elem_of_singleton. tauto.
Qed.

Lemma foldl_mergeCookie_NoDup (values : list gostring) :
  forall h : Header,
    NoDup (keysOf (cookiesOf h)) ->
    NoDup (keysOf (cookiesOf (foldl mergeCookie h values))).
Proof.
  induction values as [|v values IH]; intros h Hnd; cbn [foldl]; [done|].
  apply IH.
  destruct (cookiesOf_mergeCookie h v) as (_ & _ & [[_ ->]|[Hnot ->]]); [done|].
  unfold keysOf. rewrite map_app. cbn [map]. apply NoDup_app. repeat split.
  - exact Hnd.
  - intros x Hx Hx'. apply list_elem_of_singleton in Hx'. by subst.
  - apply NoDup_singleton.
Qed.

Lemma foldl_mergeCookie_keeps (values : list gostring) (c : gostring) :
  Forall (fun v => getCookieKey v <> getCookieKey c) values ->
  forall h : Header,
    c ∈ cookiesOf h -> c ∈ cookiesOf (foldl mergeCookie h values).
Proof.
  induction 1 as [|v values Hv _ IH]; intros h Hc; cbn [foldl]; [done|].
  apply IH.
  destruct (cookiesOf_mergeCookie h v) as (_ & Hkeep & _).
  apply Hkeep; [done|]. congruence.
Qed.

(** X17: [getHeaderWithCookies] changes the [Cookie] header only, and its
    list of cookies never shrinks and grows by the number of [Set-Cookie]
    values at most. *)
Theorem cookie_merge_frame (oldHeaders newHeaders : Header) :
  (forall k, k <> $"Cookie" ->
     getHeaderWithCookies oldHeaders newHeaders !! k = oldHeaders !! k) /\
  (length (cookiesOf oldHeaders)
   <= length (cookiesOf (getHeaderWithCookies oldHeaders newHeaders))
   <= length (cookiesOf oldHeaders)
      + length (default [] (newHeaders !! $"Set-Cookie")))%nat.
Proof.
  unfold getHeaderWithCookies.
  destruct (newHeaders !! $"Set-Cookie") as [values|]; cbn [default from_option id].
  - split; [|apply foldl_mergeCookie_length].
    intros k Hk. by apply foldl_mergeCookie_other.
  - split; [done|lia].
Qed.

(** X18: the keys of the merged cookies are the keys of the old cookies
    together with the keys of the [Set-Cookie] values: no cookie key is
    lost and every key the server set is carried. *)
Theorem cookie_merge_keys (oldHeaders newHeaders : Header) (k : gostring) :
  k ∈ keysOf (cookiesOf (getHeaderWithCookies oldHeaders newHeaders))
  <-> k ∈ keysOf (cookiesOf oldHeaders)
      \/ k ∈ keysOf (default [] (newHeaders !! $"Set-Cookie")).
Proof.
  unfold getHeaderWithCookies.
  destruct (newHeaders !! $"Set-Cookie") as [values|]; cbn [default from_option id].
  - apply foldl_mergeCookie_keys.
  - split; [by left|]. intros [H|H]; [done|]. by apply elem_of_nil in H.
Qed.

(** X19: the merge keeps cookie keys unique: when no two of the request's
    cookies share a key, no two of the merged cookies do. *)
Theorem cookie_merge_keeps_keys_unique (oldHeaders newHeaders : Header) :
  NoDup (keysOf (cookiesOf oldHeaders)) ->
  NoDup (keysOf (cookiesOf (getHeaderWithCookies oldHeaders newHeaders))).
Proof.
  unfold getHeaderWithCookies.
  destruct (newHeaders !! $"Set-Cookie") as [values|]; [|done].
  apply foldl_mergeCookie_NoDup.
Qed.

(** X20: the last [Set-Cookie] value of a key wins: a value that no later
    value of the response shares its key with is among the merged
    cookies. *)
Theorem cookie_merge_last_wins (oldHeaders newHeaders : Header)
  (before after : list gostring) (value : gostring) :
  newHeaders !! $"Set-Cookie" = Some (before ++ value :: after) ->
  Forall (fun v => getCookieKey v <> getCookieKey value) after ->
  value ∈ cookiesOf (getHeaderWithCookies oldHeaders newHeaders).
Proof.
  intros Hs Hafter. unfold getHeaderWithCookies. rewrite Hs.
  rewrite foldl_app. cbn [foldl].
  apply foldl_mergeCookie_keeps; [done|].
  by destruct (cookiesOf_mergeCookie (foldl mergeCookie oldHeaders before) value)
    as (Hv & _).
Qed.

End PrototypeProperties.

Section PrototypeRedirects.
Import Prototype.
Variable client_Do : PRequest -> option Response.
Variable ResolveReference : URL -> URL -> URL.

Local Abbreviation follow := (Prototype.follow client_Do ResolveReference).
Local Abbreviation makeRequest := (Prototype.makeRequest client_Do ResolveReference).
Local Abbreviation dispatched := (Prototype.dispatched client_Do ResolveReference).

Lemma redirectPlan_stop (method : gostring) (res : Response)
  (redirectMethod : gostring) (includeBody : bool) :
  redirectPlan method res = (redirectMethod, false, includeBody) -> final res.
Proof.
  unfold redirectPlan, final.
  destruct (Z.eqb_spec (StatusCode res) 301); [done|].
  destruct (Z.eqb_spec (StatusCode res) 302); [done|].
  destruct (Z.eqb_spec (StatusCode res) 303); [done|].
  cbn [orb]. intros H. do 3 (split; [done|]). intros Hcode.
  assert ((StatusCode res =? 307) || (StatusCode res =? 308) = true) as E.
  { apply orb_true_iff. destruct Hcode as [->| ->]; [by left|by right]. }
  rewrite E in H. destruct (Header_Get (ResHeader res) $"Location"); [done|].
  by injection H.
Qed.

Lemma redirectPlan_follow (method : gostring) (res : Response)
  (redirectMethod : gostring) (includeBody : bool) :
  redirectPlan method res = (redirectMethod, true, includeBody) ->
  (redirectMethod = method \/ redirectMethod = $"GET") /\
  (includeBody = true -> redirectMethod = method).
Proof.
  unfold redirectPlan.
  destruct ((StatusCode res =? 301) || (StatusCode res =? 302)
            || (StatusCode res =? 303)).
  - intros [= <- <-]. split; [|done].
    destruct (negb _ && negb _); [by right|by left].
  - destruct ((StatusCode res =? 307) || (StatusCode res =? 308)); [|done].
    intros [= <- _ _]. split; [by left|done].
Qed.

Lemma follow_final (budget : nat) :
  forall (req : PRequest) (res : Response),
    (follow budget req).2 = inr res -> final res.
Proof.
  induction budget as [|budget IH]; intros req res; [done|].
  cbn [Prototype.follow]. destruct (client_Do req) as [res0|]; [|done].
  destruct (redirectPlan (PMethod req) res0) as [[redirectMethod [|]] includeBody] eqn:Ep.
  - destruct (is_empty _); [done|].
    destruct (URL_Parse _ _ _) as [u|]; [|done].
    pose proof (IH (mkPRequest redirectMethod u
                      (getHeaderWithCookies (PHeader req) (ResHeader res0))
                      (PClose req) (includeBody && HasBody req)) res) as IH'.
    destruct (Prototype.follow _ _ budget _) as [sent r]. exact IH'.
  - intros [= <-]. by eapply redirectPlan_stop.
Qed.

(** X21: [makeRequest] of the prototype never returns a response it would
    have followed: a returned response has none of the status codes 301, 302
    and 303, and a returned 307 or 308 has an empty [Location]. *)
Theorem returned_response_is_final (req : PRequest) (redirectCount : nat)
  (res : Response) :
  makeRequest req redirectCount = inr res ->
  StatusCode res <> 301 /\ StatusCode res <> 302 /\ StatusCode res <> 303 /\
  (StatusCode res = 307 \/ StatusCode res = 308 ->
   Header_Get (ResHeader res) $"Location" = []).
Proof. apply follow_final. Qed.

Lemma follow_length (budget : nat) :
  forall req : PRequest, (length (follow budget req).1 <= budget)%nat.
Proof.
  induction budget as [|budget IH]; intros req; [done|].
  cbn [Prototype.follow]. destruct (client_Do req) as [res0|]; [|cbn; lia].
  destruct (redirectPlan (PMethod req) res0) as [[redirectMethod [|]] includeBody];
    [|cbn; lia].
  destruct (is_empty _); [cbn; lia|].
  destruct (URL_Parse _ _ _) as [u|]; [|cbn; lia].
  pose proof (IH (mkPRequest redirectMethod u
                    (getHeaderWithCookies (PHeader req) (ResHeader res0))
                    (PClose req) (includeBody && HasBody req))) as IH'.
  destruct (Prototype.follow _ _ budget _) as [sent r]. cbn in *. lia.
Qed.

(** X22: [makeRequest(req, redirectCount)] hands at most
    [10 - redirectCount] requests to the client, whatever the upstream
    answers; the prototype's [ServeHTTP] starts the count at 1. *)
Theorem dispatched_bounded (req : PRequest) (redirectCount : nat) :
  (length (dispatched req redirectCount) <= 10 - redirectCount)%nat.
Proof. apply follow_length. Qed.

(** X23: against an upstream that answers every request with a 302 whose
    [Location] parses, [makeRequest] gives up with the error of the redirect
    limit after exactly [10 - redirectCount] requests. *)
Theorem redirect_loop_stops (req : PRequest) (redirectCount : nat) :
  (forall r, exists res,
     client_Do r = Some res /\ StatusCode res = 302 /\
     Header_Get (ResHeader res) $"Location" <> [] /\
     Parse (Header_Get (ResHeader res) $"Location") <> None) ->
  makeRequest req redirectCount = inl StoppedAfter10Redirects /\
  length (dispatched req redirectCount) = (10 - redirectCount)%nat.
Proof.
  intros Hloop. unfold Prototype.makeRequest, Prototype.dispatched.
  generalize (10 - redirectCount)%nat as budget. intros budget. revert req.
  induction budget as [|budget IH]; intros req; [done|].
  cbn [Prototype.follow].
  destruct (Hloop req) as (res & -> & Hcode & Hloc & Hparse).
  unfold redirectPlan. rewrite Hcode. cbn [Z.eqb Pos.eqb orb].
  destruct (Header_Get (ResHeader res) $"Location") as [|c loc] eqn:El; [done|].
  cbn [is_empty]. unfold URL_Parse.
  destruct (Parse (c :: loc)) as [u|]; [|done]. cbn [mbind option_bind].
  match goal with |- context [Prototype.follow _ _ budget ?r] =>
    destruct (IH r) as [IH1 IH2]; destruct (Prototype.follow _ _ budget r) as [sent out]
  end.
  cbn in *. split; [done|]. by rewrite IH2.
Qed.

(** X24: every request [makeRequest] hands to the client has the method of
    the first request or GET and the close flag of the first request; a
    request that carries the body has the method of the first, which had the
    body. *)
Theorem dispatched_requests (req : PRequest) (redirectCount : nat) :
  Forall (fun r =>
            (PMethod r = PMethod req \/ PMethod r = $"GET") /\
            PClose r = PClose req /\
            (HasBody r = true -> HasBody req = true /\ PMethod r = PMethod req))
         (dispatched req redirectCount).
Proof.
  unfold Prototype.dispatched.
  generalize (10 - redirectCount)%nat as budget. intros budget. revert req.
  induction budget as [|budget IH]; intros req; [by constructor|].
  assert (Forall (fun r =>
            (PMethod r = PMethod req \/ PMethod r = $"GET") /\
            PClose r = PClose req /\
            (HasBody r = true -> HasBody req = true /\ PMethod r = PMethod req))
          [req]) as Hone.
  { constructor; [|constructor]. split; [by left|]. by split. }
  cbn [Prototype.follow]. destruct (client_Do req) as [res0|]; [|exact Hone].
  destruct (redirectPlan (PMethod req) res0) as [[redirectMethod [|]] includeBody] eqn:Ep;
    [|exact Hone].
  destruct (is_empty _); [exact Hone|].
  destruct (URL_Parse _ _ _) as [u|]; [|exact Hone].
  destruct (redirectPlan_follow _ _ _ _ Ep) as [Hm Hb].
  pose proof (IH (mkPRequest redirectMethod u
                    (getHeaderWithCookies (PHeader req) (ResHeader res0))
                    (PClose req) (includeBody && HasBody req))) as IH'.
  destruct (Prototype.follow _ _ budget _) as [sent r]. cbn [fst] in *.
  constructor; [inversion Hone; done|].
  eapply Forall_impl; [exact IH'|]. cbn [PMethod PClose HasBody].
  intros r0 (Hm0 & Hc0 & Hb0). split; [|split; [done|]].
  - destruct Hm0 as [-> | ->]; [exact Hm|by right].
  - intros Hr0. destruct (Hb0 Hr0) as [Hib Hm1].
    apply andb_true_iff in Hib as [Hib Hreq]. split; [done|].
    rewrite Hm1. by apply Hb.
Qed.

(** X25: the prototype never shows a followed redirect to the victim: the
    status its [ServeHTTP] writes is none of 301, 302 and 303. *)
Theorem prototype_writes_no_redirect (header0 : Header) (req : Request)
  (w : Written) :
  Prototype.ServeHTTP client_Do ResolveReference header0 req = Some w ->
  w_status w <> 301 /\ w_status w <> 302 /\ w_status w <> 303.
Proof.
  unfold Prototype.ServeHTTP. destruct (ReqBody req) as [reqBody|]; [|done].
  destruct (Prototype.makeRequest _ _ _ _) as [e|res] eqn:Em; [done|].
  destruct (ResBody res) as [body|]; [|done]. intros [= <-]. cbn [w_status].
  apply follow_final in Em. unfold final in Em. tauto.
Qed.
End PrototypeRedirects.

Lemma cookie_merge_keeps_keys_unique_witness :
  NoDup (Prototype.keysOf (Prototype.cookiesOf
    (Prototype.getHeaderWithCookies
       {[ $"Cookie" := [ $"sid=1"; $"lang=en" ] ]}
       {[ $"Set-Cookie" := [ $"sid=2"; $"theme=dark" ] ]}))).
Proof.
  apply cookie_merge_keeps_keys_unique.
  apply (bool_decide_unpack _). vm_compute. reflexivity.
Defined.

Lemma cookie_merge_last_wins_witness :
  $"sid=2" ∈ Prototype.cookiesOf
    (Prototype.getHeaderWithCookies
       {[ $"Cookie" := [ $"sid=0" ] ]}
       {[ $"Set-Cookie" := [ $"sid=1"; $"sid=2"; $"theme=dark" ] ]}).
Proof.
  apply (cookie_merge_last_wins _ _ [ $"sid=1" ] [ $"theme=dark" ] $"sid=2").
  - vm_compute. reflexivity.
  - constructor; [|constructor]. vm_compute. discriminate.
Defined.

Lemma returned_response_is_final_witness :
  StatusCode page_response <> 301 /\ StatusCode page_response <> 302 /\
  StatusCode page_response <> 303 /\
  (StatusCode page_response = 307 \/ StatusCode page_response = 308 ->
   Header_Get (ResHeader page_response) $"Location" = []).
Proof.
  apply (returned_response_is_final
           (fun r => if streq (Host (Prototype.PURL r)) $"a.test"
                     then Some redirect_response else Some page_response)
           resolve_absolute
           (Prototype.mkPRequest $"POST"
              (mkURL $"http" [] None $"a.test" $"/" [] false false [] [] [])
              ∅ false true)
           1).
  vm_compute. reflexivity.
Defined.

Lemma redirect_loop_stops_witness :
  let req := Prototype.mkPRequest $"GET"
               (mkURL $"http" [] None $"a.test" $"/" [] false false [] [] [])
               ∅ false true in
  Prototype.makeRequest (fun _ => Some redirect_response) resolve_absolute req 1
    = inl Prototype.StoppedAfter10Redirects /\
  length (Prototype.dispatched (fun _ => Some redirect_response) resolve_absolute req 1)
    = (10 - 1)%nat.
Proof.
  intros req.
  apply (redirect_loop_stops (fun _ => Some redirect_response) resolve_absolute req 1).
  intros r. exists redirect_response.
  split; [reflexivity|]. split; [reflexivity|].
  split; vm_compute; discriminate.
Defined.

Lemma prototype_writes_no_redirect_witness :
  let w := mkWritten (ResHeader page_response ∪ ∅) (StatusCode page_response)
                     $"<a href=https://x.test/a>" in
  w_status w <> 301 /\ w_status w <> 302 /\ w_status w <> 303.
Proof.
  intros w.
  apply (prototype_writes_no_redirect
           (fun r => if streq (Host (Prototype.PURL r)) $"a.test"
                     then Some redirect_response else Some page_response)
           resolve_absolute ∅ (victim_get $"a.test" $"/") w).
  vm_compute. reflexivity.
Defined.
